(** * Project Cost Analyzer: a shallow embedding of the scheduling and risk core

    This development models the Python modules [src/project.py],
    [src/calculator.py], [src/risk_simulator.py] and [src/utils.py].

    Modelling conventions.
    - Python floats are modelled as exact rationals [Q]; Python ints as [Z].
    - Python strings are modelled as Stdlib [string] (ASCII); [str.lower]
      lowers the ASCII letters A..Z.
    - Python dicts are insertion-ordered association lists ([PyDict]):
      assigning an existing key updates it in place, a new key is appended.
    - Fallible code returns [res]: [Ok], [Err] for a raised exception, and
      [OutOfFuel] when a [while] loop has not finished within the fuel given
      to the model.  A result [Ok v] obtained with some fuel is the value the
      Python code returns; a loop that never stops is [OutOfFuel] for every
      fuel. *)

From Stdlib Require Import ZArith QArith Qminmax Qround Lqa Lia List Bool String Ascii.
From Stdlib Require Import Sorted Permutation Relations.
Import ListNotations.
Open Scope string_scope.

(* ------------------------------------------------------------------ *)
(** ** Results of fallible code *)

Inductive res (A : Type) : Type :=
| Ok (a : A)
| Err (msg : string)
| OutOfFuel.
Arguments Ok {A} a.
Arguments Err {A} msg.
Arguments OutOfFuel {A}.

Definition bind {A B : Type} (r : res A) (k : A -> res B) : res B :=
  match r with
  | Ok a => k a
  | Err m => Err m
  | OutOfFuel => OutOfFuel
  end.

Notation "x <- c ;; k" := (bind c (fun x => k))
  (at level 61, c at next level, right associativity).

(* ------------------------------------------------------------------ *)
(** ** Python helpers *)

(** Boolean comparisons on floats. *)
Definition Qltb (a b : Q) : bool := negb (Qle_bool b a).
Definition Qleb (a b : Q) : bool := Qle_bool a b.
Definition Qeqb (a b : Q) : bool := Qeq_bool a b.

(** Builtin [max(a, b)] and [min(a, b)]: the first argument is kept unless
    the second is strictly larger (resp. smaller). *)
Definition py_max2 (a b : Q) : Q := if Qltb a b then b else a.
Definition py_min2 (a b : Q) : Q := if Qltb b a then b else a.

(** Builtin [max(xs)] / [min(xs)] on a non-empty list. *)
Definition py_max (x : Q) (xs : list Q) : Q := fold_left py_max2 xs x.
Definition py_min (x : Q) (xs : list Q) : Q := fold_left py_min2 xs x.

(** Builtin [sum(xs)]. *)
Definition py_sum (xs : list Q) : Q := fold_left Qplus xs 0.

(** [int(x)] truncates toward zero. *)
Definition py_int (q : Q) : Z := Z.quot (Qnum q) (Zpos (Qden q)).

(** List indexing [l[i]], negative indices counting from the end. *)
Definition py_index {A} (l : list A) (i : Z) : res A :=
  let j := if (0 <=? i)%Z then i else (Z.of_nat (List.length l) + i)%Z in
  if (j <? 0)%Z then Err "IndexError: list index out of range"
  else match nth_error l (Z.to_nat j) with
       | Some a => Ok a
       | None => Err "IndexError: list index out of range"
       end.

(** [sorted(xs, key=...)] is a stable sort; [lt] is the key order. *)
Fixpoint insert_by {A} (lt : A -> A -> bool) (x : A) (l : list A) : list A :=
  match l with
  | [] => [x]
  | y :: r => if lt x y then x :: y :: r else y :: insert_by lt x r
  end.

Definition py_sorted_by {A} (lt : A -> A -> bool) (l : list A) : list A :=
  fold_left (fun acc x => insert_by lt x acc) l [].

(** [str.lower()] on ASCII. *)
Definition lower_ascii (c : ascii) : ascii :=
  let n := nat_of_ascii c in
  if (65 <=? n)%nat && (n <=? 90)%nat then ascii_of_nat (n + 32) else c.

Fixpoint str_map (f : ascii -> ascii) (s : string) : string :=
  match s with
  | EmptyString => EmptyString
  | String c r => String (f c) (str_map f r)
  end.

Definition py_lower (s : string) : string := str_map lower_ascii s.

(** [s.replace(" ", "_")]. *)
Definition replace_space (s : string) : string :=
  str_map (fun c => if Ascii.eqb c " "%char then "_"%char else c) s.

(** [s in xs] for a list of strings. *)
Definition str_mem (s : string) (xs : list string) : bool :=
  existsb (String.eqb s) xs.

(* ------------------------------------------------------------------ *)
(** ** Python dicts keyed by strings *)

Module PyDict.
Definition t (V : Type) := list (string * V).

Fixpoint get {V} (k : string) (d : t V) : option V :=
  match d with
  | [] => None
  | (k', v) :: r => if String.eqb k k' then Some v else get k r
  end.

(** [d[k] = v]: an existing key keeps its position. *)
Fixpoint set {V} (k : string) (v : V) (d : t V) : t V :=
  match d with
  | [] => [(k, v)]
  | (k', v') :: r => if String.eqb k k' then (k', v) :: r else (k', v') :: set k v r
  end.

Definition keys {V} (d : t V) : list string := map fst d.
Definition values {V} (d : t V) : list V := map snd d.

Definition mem {V} (k : string) (d : t V) : bool :=
  match get k d with Some _ => true | None => false end.

(** [d[k]], raising [KeyError] on a missing key. *)
Definition lookup {V} (k : string) (d : t V) : res V :=
  match get k d with Some v => Ok v | None => Err ("KeyError: " ++ k) end.

(** [{f(x): g(x) for x in xs}]. *)
Definition comprehension {A V} (f : A -> string) (g : A -> V) (xs : list A) : t V :=
  fold_left (fun d x => set (f x) (g x) d) xs [].
End PyDict.

(* ------------------------------------------------------------------ *)
(** ** [src/project.py]: Task and Project *)

Record Task := mkTask {
  name : string;
  estimated_days : Q;
  cost_per_day : Q;
  dependencies : list string;
  task_id : string
}.

(** The identifier derived from a name in [Task.__post_init__]:
    [self.name.lower().replace(" ", "_")[:20]]. *)
Definition derive_task_id (nm : string) : string :=
  substring 0 20 (replace_space (py_lower nm)).

(** [Task(name, estimated_days, cost_per_day, dependencies, task_id)] followed
    by [__post_init__]: the only work done is filling in a missing id. *)
Definition Task_init (nm : string) (days cost : Q) (deps : list string)
    (tid : option string) : Task :=
  mkTask nm days cost deps
    (match tid with Some s => s | None => derive_task_id nm end).

Definition base_cost (t : Task) : Q := estimated_days t * cost_per_day t.

Record Project := mkProject {
  pname : string;
  tasks : list Task;
  team_size : Z;
  risk_level : string;
  description : string
}.

Definition valid_risk_levels : list string := ["low"; "medium"; "high"].

(** [Project(...)] followed by [__post_init__]. *)
Definition Project_init (nm : string) (ts : list Task) (team : Z) (risk : string)
    (desc : string) : res Project :=
  if (team <=? 0)%Z then Err "Team size must be at least 1"
  else match ts with
       | [] => Err "Project must have at least one task"
       | _ =>
         if negb (str_mem (py_lower risk) valid_risk_levels)
         then Err "Risk level must be one of ['low', 'medium', 'high']"
         else Ok (mkProject nm ts team (py_lower risk) desc)
       end.

Definition total_estimated_days (p : Project) : Q :=
  py_sum (map estimated_days (tasks p)).

Definition task_count (p : Project) : Z := Z.of_nat (List.length (tasks p)).

(** [get_task_by_id]: the first task with that id. *)
Fixpoint find_task (tid : string) (ts : list Task) : option Task :=
  match ts with
  | [] => None
  | t :: r => if String.eqb (task_id t) tid then Some t else find_task tid r
  end.

Definition get_task_by_id (p : Project) (tid : string) : option Task :=
  find_task tid (tasks p).

(** Python sets of strings, as lists.  [set.add] is idempotent; [set.remove]
    raises [KeyError] on a missing element. *)
Definition set_add (x : string) (s : list string) : list string :=
  if str_mem x s then s else x :: s.

Definition set_remove (x : string) (s : list string) : res (list string) :=
  if str_mem x s then Ok (filter (fun y => negb (String.eqb x y)) s)
  else Err ("KeyError: " ++ x).

(** *** [Project.validate_dependencies] and [Project._has_circular_dependency] *)

(** [graph = {task.task_id: task.dependencies for task in self.tasks}] *)
Definition dep_graph (p : Project) : PyDict.t (list string) :=
  PyDict.comprehension task_id dependencies (tasks p).

(** [graph.get(node, [])] *)
Definition graph_get (g : PyDict.t (list string)) (node : string) : list string :=
  match PyDict.get node g with Some l => l | None => [] end.

(** The loop [for neighbor in graph.get(node, []): ...] of [has_cycle(node)],
    followed by [rec_stack.remove(node); return False]; [hc] is the nested
    call [has_cycle(neighbor)] and the state is [(visited, rec_stack)]. *)
Fixpoint cycle_loop
    (hc : string -> list string -> list string -> res (bool * list string * list string))
    (node : string) (ns : list string) (visited rec : list string)
    : res (bool * list string * list string) :=
  match ns with
  | [] => rec' <- set_remove node rec ;; Ok (false, visited, rec')
  | n :: ns' =>
    if negb (str_mem n visited) then
      r <- hc n visited rec ;;
      let '(b, visited', rec') := r in
      if b then Ok (true, visited', rec') else cycle_loop hc node ns' visited' rec'
    else if str_mem n rec then Ok (true, visited, rec)
    else cycle_loop hc node ns' visited rec
  end.

(** The nested [has_cycle(node)]; [fuel] bounds the recursion depth. *)
Fixpoint has_cycle (g : PyDict.t (list string)) (fuel : nat) (node : string)
    (visited rec : list string) : res (bool * list string * list string) :=
  match fuel with
  | O => OutOfFuel
  | S f =>
    cycle_loop (has_cycle g f) node (graph_get g node)
      (set_add node visited) (set_add node rec)
  end.

(** The loop [for task in self.tasks: if task.task_id not in visited: ...]. *)
Fixpoint dfs_roots (g : PyDict.t (list string)) (fuel : nat) (ts : list Task)
    (visited rec : list string) : res bool :=
  match ts with
  | [] => Ok false
  | t :: r =>
    if negb (str_mem (task_id t) visited) then
      x <- has_cycle g fuel (task_id t) visited rec ;;
      let '(b, visited', rec') := x in
      if b then Ok true else dfs_roots g fuel r visited' rec'
    else dfs_roots g fuel r visited rec
  end.

(** Every node the search can meet: the task ids and the dependency ids.
    Each nested call visits a new node of it, so its length plus one bounds
    the recursion depth. *)
Definition universe (p : Project) : list string :=
  map task_id (tasks p) ++ List.concat (map dependencies (tasks p)).

Definition dfs_fuel (p : Project) : nat := S (List.length (universe p)).

Definition has_circular_dependency (p : Project) : res bool :=
  dfs_roots (dep_graph p) (dfs_fuel p) (tasks p) [] [].

Definition missing_dep_message (t : Task) (dep : string) : string :=
  "Task '" ++ name t ++ "' depends on non-existent task '" ++ dep ++ "'".

Definition circular_message : string := "Project has circular dependencies".

(** The missing-reference errors, in task order then dependency order. *)
Definition missing_dep_errors (p : Project) : list string :=
  let ids := map task_id (tasks p) in
  List.concat (map (fun t => map (missing_dep_message t)
                             (filter (fun d => negb (str_mem d ids)) (dependencies t)))
              (tasks p)).

Definition validate_dependencies (p : Project) : res (list string) :=
  c <- has_circular_dependency p ;;
  Ok (missing_dep_errors p ++ (if c then [circular_message] else []))%list.

(** *** [Project.get_critical_path] *)

Definition task_or_attr_error (o : option Task) : res Task :=
  match o with
  | Some t => Ok t
  | None => Err "AttributeError: 'NoneType' object has no attribute 'estimated_days'"
  end.

(** One pass of [for task in self.tasks: if current_id in task.dependencies:
    ...] after [current_id] is popped; returns the updated in-degrees,
    earliest starts and queue. *)
Fixpoint kahn_update (cur : string) (cur_task : option Task) (ts : list Task)
    (indeg : PyDict.t Z) (es : PyDict.t Q) (queue : list string)
    : res (PyDict.t Z * PyDict.t Q * list string) :=
  match ts with
  | [] => Ok (indeg, es, queue)
  | t :: r =>
    if str_mem cur (dependencies t) then
      es_t <- PyDict.lookup (task_id t) es ;;
      es_c <- PyDict.lookup cur es ;;
      ct <- task_or_attr_error cur_task ;;
      let es := PyDict.set (task_id t) (py_max2 es_t (es_c + estimated_days ct)) es in
      d <- PyDict.lookup (task_id t) indeg ;;
      let indeg := PyDict.set (task_id t) (d - 1)%Z indeg in
      let queue := if (d - 1 =? 0)%Z then (queue ++ [task_id t])%list else queue in
      kahn_update cur cur_task r indeg es queue
    else kahn_update cur cur_task r indeg es queue
  end.

(** [while queue: current_id = queue.pop(0); ...] *)
Fixpoint kahn_loop (fuel : nat) (ts : list Task) (queue : list string)
    (indeg : PyDict.t Z) (es : PyDict.t Q) : res (PyDict.t Q) :=
  match fuel with
  | O => OutOfFuel
  | S f =>
    match queue with
    | [] => Ok es
    | cur :: q =>
      x <- kahn_update cur (find_task cur ts) ts indeg es q ;;
      let '(indeg', es', q') := x in
      kahn_loop f ts q' indeg' es'
    end
  end.

(** [[task.task_id for task in self.tasks if in_degree[task.task_id] == 0]] *)
Fixpoint initial_queue (ts_all ts : list Task) (indeg : PyDict.t Z) : res (list string) :=
  match ts with
  | [] => Ok []
  | t :: r =>
    d <- PyDict.lookup (task_id t) indeg ;;
    rest <- initial_queue ts_all r indeg ;;
    Ok (if (d =? 0)%Z then task_id t :: rest else rest)
  end.

(** The key [earliest_start[tid] + self.get_task_by_id(tid).estimated_days]. *)
Definition finish_key (ts : list Task) (es : PyDict.t Q) (tid : string) : res Q :=
  e <- PyDict.lookup tid es ;;
  t <- task_or_attr_error (find_task tid ts) ;;
  Ok (e + estimated_days t).

(** [max(keys, key=...)]: the first key whose value is maximal. *)
Fixpoint argmax_from (ts : list Task) (es : PyDict.t Q) (best : string) (bv : Q)
    (ks : list string) : res string :=
  match ks with
  | [] => Ok best
  | k :: r =>
    v <- finish_key ts es k ;;
    if Qltb bv v then argmax_from ts es k v r else argmax_from ts es best bv r
  end.

Definition argmax_key (ts : list Task) (es : PyDict.t Q) (ks : list string) : res string :=
  match ks with
  | [] => Err "ValueError: max() arg is an empty sequence"
  | k :: r => v <- finish_key ts es k ;; argmax_from ts es k v r
  end.

(** [for dep_id in current_task.dependencies: ... if earliest_start[dep_id] +
    dep_task.estimated_days == earliest_start[current_task.task_id]: ...
    break]; [None] when no dependency matches. *)
Fixpoint find_predecessor (ts : list Task) (es : PyDict.t Q) (cur : Task)
    (deps : list string) : res (option string) :=
  match deps with
  | [] => Ok None
  | d :: r =>
    e <- PyDict.lookup d es ;;
    dt <- task_or_attr_error (find_task d ts) ;;
    e_cur <- PyDict.lookup (task_id cur) es ;;
    if Qeqb (e + estimated_days dt) e_cur then Ok (Some d)
    else find_predecessor ts es cur r
  end.

(** Truthiness of [current_id] ([None] or a string). *)
Definition truthy (o : option string) : option string :=
  match o with
  | Some s => if String.eqb s "" then None else Some s
  | None => None
  end.

(** The backtracking [while current_id: ...]; [acc] is [critical_path]. *)
Fixpoint backtrack (fuel : nat) (ts : list Task) (es : PyDict.t Q)
    (cur : option string) (acc : list Task) : res (list Task) :=
  match fuel with
  | O => OutOfFuel
  | S f =>
    match truthy cur with
    | None => Ok acc
    | Some c =>
      ct <- task_or_attr_error (find_task c ts) ;;
      let acc := ct :: acc in
      match dependencies ct with
      | [] => Ok acc
      | deps =>
        nxt <- find_predecessor ts es ct deps ;;
        backtrack f ts es nxt acc
      end
    end
  end.

Definition get_critical_path (fuel : nat) (p : Project) : res (list Task) :=
  let ts := tasks p in
  let in_degree := PyDict.comprehension task_id
                     (fun t => Z.of_nat (List.length (dependencies t))) ts in
  let es0 := PyDict.comprehension task_id (fun _ => 0%Q) ts in
  queue <- initial_queue ts ts in_degree ;;
  es <- kahn_loop fuel ts queue in_degree es0 ;;
  end_id <- argmax_key ts es (PyDict.keys es) ;;
  backtrack fuel ts es (Some end_id) [].

(** *** [ProjectCalculator._simulate_resource_constrained_schedule] *)

(** [==] on lists of strings. *)
Fixpoint str_list_eqb (a b : list string) : bool :=
  match a, b with
  | [], [] => true
  | x :: a', y :: b' => String.eqb x y && str_list_eqb a' b'
  | _, _ => false
  end.

(** Dataclass equality of two tasks (field by field). *)
Definition task_eqb (a b : Task) : bool :=
  String.eqb (name a) (name b) && Qeqb (estimated_days a) (estimated_days b)
  && Qeqb (cost_per_day a) (cost_per_day b)
  && str_list_eqb (dependencies a) (dependencies b)
  && String.eqb (task_id a) (task_id b).

(** [l.remove(x)]: removes the first element equal to [x]. *)
Fixpoint py_remove (x : Task) (l : list Task) : res (list Task) :=
  match l with
  | [] => Err "ValueError: list.remove(x): x not in list"
  | y :: r => if task_eqb y x then Ok r else (r' <- py_remove x r ;; Ok (y :: r'))
  end.

(** The first loop: [earliest_start] is the max of the finish times already
    recorded for the task's dependencies, in task order. *)
Definition dep_start (finish : PyDict.t Q) (t : Task) : Q :=
  fold_left (fun e dep => match PyDict.get dep finish with
                          | Some f => py_max2 e f
                          | None => e
                          end) (dependencies t) 0.

Fixpoint forward_pass (ts : list Task) (start finish : PyDict.t Q)
    : PyDict.t Q * PyDict.t Q :=
  match ts with
  | [] => (start, finish)
  | t :: r =>
    let e := dep_start finish t in
    forward_pass r (PyDict.set (task_id t) e start)
                   (PyDict.set (task_id t) (e + estimated_days t) finish)
  end.

(** [max(d.values()) if d else 0.0] *)
Definition max_values (d : PyDict.t Q) : Q :=
  match PyDict.values d with [] => 0 | v :: vs => py_max v vs end.

(** Python tuple order on the sort key [(start, -estimated_days)]. *)
Definition key_lt (a b : Q * Q) : bool :=
  Qltb (fst a) (fst b) || (Qeqb (fst a) (fst b) && Qltb (snd a) (snd b)).

Fixpoint decorate (start : PyDict.t Q) (ts : list Task) : res (list ((Q * Q) * Task)) :=
  match ts with
  | [] => Ok []
  | t :: r =>
    s <- PyDict.lookup (task_id t) start ;;
    rest <- decorate start r ;;
    Ok (((s, - estimated_days t), t) :: rest)
  end.

(** [sorted(self.project.tasks, key=lambda t: (task_start_times[t.task_id], -t.estimated_days))] *)
Definition sort_tasks (start : PyDict.t Q) (ts : list Task) : res (list Task) :=
  dec <- decorate start ts ;;
  Ok (map snd (py_sorted_by (fun a b => key_lt (fst a) (fst b)) dec)).

Record SimState := mkSim {
  remaining : list Task;
  active : list Task;
  sched_start : PyDict.t Q;
  sched_finish : PyDict.t Q;
  now : Q
}.

(** [all(dep_id in scheduled_finish and scheduled_finish[dep_id] <= current_time ...)] *)
Definition deps_complete (sf : PyDict.t Q) (now : Q) (t : Task) : bool :=
  forallb (fun d => match PyDict.get d sf with Some f => Qleb f now | None => false end)
          (dependencies t).

(** [[t for t in active_tasks if scheduled_finish[t.task_id] > current_time]] *)
Fixpoint retire (sf : PyDict.t Q) (now : Q) (act : list Task) : res (list Task) :=
  match act with
  | [] => Ok []
  | t :: r =>
    f <- PyDict.lookup (task_id t) sf ;;
    rest <- retire sf now r ;;
    Ok (if Qltb now f then t :: rest else rest)
  end.

(** [for task in can_start: ...]: record the times, append to [active_tasks]
    and remove from [remaining_tasks]. *)
Fixpoint start_tasks (now : Q) (cs : list Task) (rem act : list Task)
    (ss sf : PyDict.t Q) : res (list Task * list Task * PyDict.t Q * PyDict.t Q) :=
  match cs with
  | [] => Ok (rem, act, ss, sf)
  | t :: r =>
    let ss := PyDict.set (task_id t) now ss in
    let sf := PyDict.set (task_id t) (now + estimated_days t) sf in
    rem' <- py_remove t rem ;;
    start_tasks now r rem' (act ++ [t])%list ss sf
  end.

Fixpoint lookup_all (sf : PyDict.t Q) (ids : list string) : res (list Q) :=
  match ids with
  | [] => Ok []
  | i :: r => v <- PyDict.lookup i sf ;; rest <- lookup_all sf r ;; Ok (v :: rest)
  end.

(** Outcome of one loop body: go on, or [break]. *)
Inductive step_out := Continue (s : SimState) | Break (s : SimState).

(** One iteration of [while remaining_tasks or active_tasks]. *)
Definition sim_step (team : Z) (s : SimState) : res step_out :=
  act <- retire (sched_finish s) (now s) (active s) ;;
  let can_start := filter (fun t => deps_complete (sched_finish s) (now s) t
                                    && (Z.of_nat (List.length act) <? team)%Z)
                          (remaining s) in
  x <- start_tasks (now s) can_start (remaining s) act (sched_start s) (sched_finish s) ;;
  let '(rem, act, ss, sf) := x in
  match act with
  | a :: _ =>
    fs <- lookup_all sf (map task_id act) ;;
    match fs with
    | f :: fs' => Ok (Continue (mkSim rem act ss sf (py_min f fs')))
    | [] => Err "ValueError: min() arg is an empty sequence"
    end
  | [] =>
    match rem with
    | nt :: _ =>
      match dependencies nt with
      | d :: ds =>
        let g := fun d => match PyDict.get d sf with Some f => f | None => 0%Q end in
        Ok (Continue (mkSim rem act ss sf (py_max (g d) (map g ds))))
      | [] => Ok (Continue (mkSim rem act ss sf (now s + (1 # 10))%Q))
      end
    | [] => Ok (Break (mkSim rem act ss sf (now s)))
    end
  end.

Fixpoint sim_loop (fuel : nat) (team : Z) (s : SimState) : res SimState :=
  match fuel with
  | O => OutOfFuel
  | S f =>
    match remaining s, active s with
    | [], [] => Ok s
    | _, _ =>
      o <- sim_step team s ;;
      match o with
      | Continue s' => sim_loop f team s'
      | Break s' => Ok s'
      end
    end
  end.

Definition simulate_resource_constrained_schedule (fuel : nat) (p : Project) : res Q :=
  let '(start, finish) := forward_pass (tasks p) [] [] in
  if (task_count p <=? team_size p)%Z then Ok (max_values finish)
  else
    sorted <- sort_tasks start (tasks p) ;;
    s <- sim_loop fuel (team_size p) (mkSim sorted [] [] [] 0) ;;
    Ok (max_values (sched_finish s)).

(** ** [src/calculator.py] and [src/utils.py]: deterministic estimates *)

Definition get_risk_multiplier (risk : string) : Q :=
  let r := py_lower risk in
  if String.eqb r "low" then 11 # 10
  else if String.eqb r "medium" then 13 # 10
  else if String.eqb r "high" then 16 # 10
  else 13 # 10.

Definition calculate_sequential_timeline (p : Project) : Q :=
  total_estimated_days p * get_risk_multiplier (risk_level p).

Definition calculate_parallel_timeline (fuel : nat) (p : Project) : res Q :=
  match tasks p with
  | [] => Ok 0
  | _ =>
    cp <- get_critical_path fuel p ;;
    let cp_duration := py_sum (map estimated_days cp) in
    timeline <- simulate_resource_constrained_schedule fuel p ;;
    let m := get_risk_multiplier (risk_level p) in
    Ok (py_max2 (timeline * m) (cp_duration * m))
  end.

(** [calculate_percentile(values, percentile)] in [src/utils.py]. *)
Definition calculate_percentile (values : list Q) (percentile : Q) : res Q :=
  match values with
  | [] => Ok 0
  | _ =>
    let sorted_values := py_sorted_by Qltb values in
    let n := Z.of_nat (List.length sorted_values) in
    let index := py_int (inject_Z n * (percentile / 100)) in
    let index := Z.min index (n - 1) in
    py_index sorted_values index
  end.

(** ** [src/risk_simulator.py] *)

Record SimulationResult := mkResult {
  costs : list Q;
  timelines : list Q;
  iterations : Z
}.

Section Statistics.
(** The float operation [x ** 0.5]. *)
Variable py_sqrt : Q -> Q.

Definition mean_of (xs : list Q) : Q :=
  match xs with
  | [] => 0
  | _ => py_sum xs / inject_Z (Z.of_nat (List.length xs))
  end.

Definition std_of (xs : list Q) : Q :=
  match xs with
  | [] => 0
  | _ =>
    let m := mean_of xs in
    let variance := py_sum (map (fun x => (x - m) * (x - m)) xs)
                    / inject_Z (Z.of_nat (List.length xs)) in
    py_sqrt variance
  end.

Definition cost_mean (r : SimulationResult) : Q := mean_of (costs r).
Definition timeline_mean (r : SimulationResult) : Q := mean_of (timelines r).
Definition cost_std (r : SimulationResult) : Q := std_of (costs r).
Definition timeline_std (r : SimulationResult) : Q := std_of (timelines r).
End Statistics.

Definition get_cost_percentile (r : SimulationResult) (p : Q) : res Q :=
  calculate_percentile (costs r) p.

Definition get_timeline_percentile (r : SimulationResult) (p : Q) : res Q :=
  calculate_percentile (timelines r) p.

Record RiskSimulator := mkSimulator {
  sim_project : Project;
  sim_iterations : Z
}.

(** [RiskSimulator.__init__]: [self.iterations = max(100, iterations)]. *)
Definition RiskSimulator_init (p : Project) (n : Z) : RiskSimulator :=
  mkSimulator p (Z.max 100 n).

Definition variation_range (p : Project) : Q :=
  let r := risk_level p in
  if String.eqb r "low" then 15 # 100
  else if String.eqb r "medium" then 30 # 100
  else if String.eqb r "high" then 50 # 100
  else 30 # 100.

Definition risk_base (p : Project) : Q :=
  let r := risk_level p in
  if String.eqb r "low" then 105 # 100
  else if String.eqb r "medium" then 115 # 100
  else if String.eqb r "high" then 130 # 100
  else 115 # 100.

Section Random.
(** The module-level generator of [random]: its state, and the draws
    [random.uniform(a, b)] and [random.gauss(mu, sigma)]. *)
Variable Rng : Type.
Variable uniform : Q -> Q -> Rng -> Q * Rng.
Variable gauss : Q -> Q -> Rng -> Q * Rng.

(** [_get_risk_factor] *)
Definition get_risk_factor (p : Project) (g : Rng) : Q * Rng :=
  let '(variation, g) := gauss 0 (1 # 10) g in
  (py_max2 1 (risk_base p + variation), g).

(** The per-task loop of [_simulate_single_scenario]. *)
Fixpoint perturb_tasks (p : Project) (ts : list Task) (total : Q)
    (durations : PyDict.t Q) (g : Rng) : Q * PyDict.t Q * Rng :=
  match ts with
  | [] => (total, durations, g)
  | t :: r =>
    let vr := variation_range p in
    let '(cm, g) := uniform (1 - vr * (5 # 10)) (1 + vr) g in
    let total := total + base_cost t * cm in
    let '(tm, g) := uniform (1 - vr * (3 # 10)) (1 + vr * (12 # 10)) g in
    perturb_tasks p r total (PyDict.set (task_id t) (estimated_days t * tm) durations) g
  end.

(** The dependency loop of [_calculate_scenario_timeline]. *)
Fixpoint scenario_finish (durations : PyDict.t Q) (ts : list Task)
    (finish : PyDict.t Q) : res (PyDict.t Q) :=
  match ts with
  | [] => Ok finish
  | t :: r =>
    let e := dep_start finish t in
    d <- PyDict.lookup (task_id t) durations ;;
    scenario_finish durations r (PyDict.set (task_id t) (e + d) finish)
  end.

(** [_calculate_scenario_timeline] *)
Definition calculate_scenario_timeline (p : Project) (durations : PyDict.t Q)
    (g : Rng) : res (Q * Rng) :=
  finish <- scenario_finish durations (tasks p) [] ;;
  if (team_size p <? task_count p)%Z then
    if (team_size p =? 0)%Z then Err "ZeroDivisionError: division by zero"
    else
      let contention := 1 + (1 # 10) * (inject_Z (task_count p) / inject_Z (team_size p) - 1) in
      let '(u, g) := uniform (8 # 10) (12 # 10) g in
      let contention := contention * u in
      Ok (match PyDict.values finish with
          | [] => 0
          | v :: vs => py_max v vs * contention
          end, g)
  else Ok (max_values finish, g).

(** [_simulate_single_scenario] *)
Definition simulate_single_scenario (p : Project) (g : Rng) : res (Q * Q * Rng) :=
  let '(total_cost, durations, g) := perturb_tasks p (tasks p) 0 [] g in
  x <- calculate_scenario_timeline p durations g ;;
  let '(total_timeline, g) := x in
  let '(rf, g) := get_risk_factor p g in
  Ok (total_cost * rf, total_timeline * rf, g).

(** [for _ in range(self.iterations): ...] *)
Fixpoint simulation_trials (p : Project) (k : nat) (cs tl : list Q) (g : Rng)
    : res (list Q * list Q * Rng) :=
  match k with
  | O => Ok (cs, tl, g)
  | S k' =>
    x <- simulate_single_scenario p g ;;
    let '(c, t, g) := x in
    simulation_trials p k' (cs ++ [c])%list (tl ++ [t])%list g
  end.

(** [run_simulation] *)
Definition run_simulation (sim : RiskSimulator) (g : Rng) : res (SimulationResult * Rng) :=
  x <- simulation_trials (sim_project sim) (Z.to_nat (sim_iterations sim)) [] [] g ;;
  let '(cs, tl, g) := x in
  Ok (mkResult cs tl (sim_iterations sim), g).
End Random.

(** ** Further code of the same modules *)

(** *** [src/project.py] *)

(** [Project.total_base_cost]: [sum(task.base_cost for task in self.tasks)]. *)
Definition total_base_cost (p : Project) : Q := py_sum (map base_cost (tasks p)).

(** [Project.get_task_by_name]: the first task whose lowercased name equals
    the lowercased query. *)
Fixpoint find_task_by_name (nm : string) (ts : list Task) : option Task :=
  match ts with
  | [] => None
  | t :: r =>
    if String.eqb (py_lower (name t)) (py_lower nm) then Some t
    else find_task_by_name nm r
  end.

Definition get_task_by_name (p : Project) (nm : string) : option Task :=
  find_task_by_name nm (tasks p).

(** [Task.has_dependencies]: [len(self.dependencies) > 0]. *)
Definition has_dependencies (t : Task) : bool :=
  (0 <? List.length (dependencies t))%nat.

(** [Project.get_independent_tasks] *)
Definition get_independent_tasks (p : Project) : list Task :=
  filter (fun t => negb (has_dependencies t)) (tasks p).

(** *** [src/utils.py] *)

(** The characters [str.isspace] accepts in the ASCII range:
    [\t \n \x0b \x0c \r], [\x1c .. \x1f] and the space. *)
Definition py_isspace (c : ascii) : bool :=
  let n := nat_of_ascii c in
  ((9 <=? n) && (n <=? 13))%nat || ((28 <=? n) && (n <=? 31))%nat || (n =? 32)%nat.

Fixpoint py_lstrip (s : string) : string :=
  match s with
  | EmptyString => EmptyString
  | String c r => if py_isspace c then py_lstrip r else s
  end.

Fixpoint py_rstrip (s : string) : string :=
  match s with
  | EmptyString => EmptyString
  | String c r =>
    let r' := py_rstrip r in
    if String.eqb r' "" && py_isspace c then EmptyString else String c r'
  end.

(** [str.strip()] *)
Definition py_strip (s : string) : string := py_rstrip (py_lstrip s).

(** [validate_risk_level]: lower, strip, check membership. *)
Definition validate_risk_level (risk : string) : res string :=
  let r := py_strip (py_lower risk) in
  if negb (str_mem r valid_risk_levels)
  then Err ("Risk level must be one of ['low', 'medium', 'high']. Got: " ++ r)
  else Ok r.

(** *** [src/calculator.py] *)

(** [calculate_base_cost], [calculate_adjusted_cost] and
    [calculate_cost_per_resource]; [self.risk_multiplier] is
    [get_risk_multiplier(project.risk_level)] from [__init__]. *)
Definition calculate_base_cost (p : Project) : Q := total_base_cost p.

Definition calculate_adjusted_cost (p : Project) : Q :=
  total_base_cost p * get_risk_multiplier (risk_level p).

Definition calculate_cost_per_resource (p : Project) : res Q :=
  let adjusted_cost := calculate_adjusted_cost p in
  if (team_size p =? 0)%Z then Err "ZeroDivisionError: float division by zero"
  else Ok (adjusted_cost / inject_Z (team_size p)).

Record CostBreakdown := mkCostBreakdown {
  cb_base_cost : Q;
  cb_risk_overhead : Q;
  cb_total_cost : Q;
  cb_cost_per_resource : Q
}.

(** [calculate_cost_breakdown] *)
Definition calculate_cost_breakdown (p : Project) : res CostBreakdown :=
  let base := calculate_base_cost p in
  let adjusted := calculate_adjusted_cost p in
  let overhead := adjusted - base in
  per <- calculate_cost_per_resource p ;;
  Ok (mkCostBreakdown base overhead adjusted per).

Record TaskCost := mkTaskCost {
  tc_task_name : string;
  tc_task_id : string;
  tc_base_cost : Q;
  tc_adjusted_cost : Q;
  tc_days : Q;
  tc_cost_per_day : Q
}.

(** [calculate_task_costs] *)
Definition calculate_task_costs (p : Project) : list TaskCost :=
  let m := get_risk_multiplier (risk_level p) in
  map (fun t => mkTaskCost (name t) (task_id t) (base_cost t) (base_cost t * m)
                           (estimated_days t) (cost_per_day t)) (tasks p).

Record TimelineBreakdown := mkTimelineBreakdown {
  tb_sequential : Q;
  tb_parallel_optimistic : Q;
  tb_parallel_realistic : Q
}.

(** [calculate_timeline_breakdown]: the dict entries are evaluated in order. *)
Definition calculate_timeline_breakdown (fuel : nat) (p : Project) : res TimelineBreakdown :=
  let sequential := calculate_sequential_timeline p in
  cp <- get_critical_path fuel p ;;
  realistic <- calculate_parallel_timeline fuel p ;;
  Ok (mkTimelineBreakdown sequential (py_sum (map estimated_days cp)) realistic).

(** The two shapes of the dict [get_critical_path_analysis] returns. *)
Inductive CriticalPathAnalysis :=
| NoCriticalPath
| CriticalPathInfo (cp_tasks : list string) (cp_task_count : Z) (cp_duration : Q)
    (cp_adjusted_duration : Q) (cp_cost : Q) (cp_adjusted_cost : Q).

(** [get_critical_path_analysis] *)
Definition get_critical_path_analysis (fuel : nat) (p : Project) : res CriticalPathAnalysis :=
  cp <- get_critical_path fuel p ;;
  match cp with
  | [] => Ok NoCriticalPath
  | _ =>
    let m := get_risk_multiplier (risk_level p) in
    let duration := py_sum (map estimated_days cp) in
    let cost := py_sum (map base_cost cp) in
    Ok (CriticalPathInfo (map name cp) (Z.of_nat (List.length cp)) duration
          (duration * m) cost (cost * m))
  end.

(** *** [src/risk_simulator.py] *)

Record ScenarioEntry := mkScenario {
  sc_cost : Q;
  sc_timeline : Q;
  sc_probability : string
}.

(** [SimulationResult.get_scenarios] *)
Definition get_scenarios (r : SimulationResult) : res (PyDict.t ScenarioEntry) :=
  bc <- get_cost_percentile r 10 ;; bt <- get_timeline_percentile r 10 ;;
  wc <- get_cost_percentile r 90 ;; wt <- get_timeline_percentile r 90 ;;
  mc <- get_cost_percentile r 50 ;; mt <- get_timeline_percentile r 50 ;;
  qc <- get_cost_percentile r 75 ;; qt <- get_timeline_percentile r 75 ;;
  Ok [("best_case", mkScenario bc bt "10% chance of being this good or better");
      ("expected", mkScenario (cost_mean r) (timeline_mean r) "Most likely outcome (mean)");
      ("worst_case", mkScenario wc wt "10% chance of being this bad or worse");
      ("p50", mkScenario mc mt "50% confidence level (median)");
      ("p75", mkScenario qc qt "25% chance of exceeding this")].

Record RiskAnalysis := mkRiskAnalysis {
  cost_variability : Q;
  timeline_variability : Q;
  primary_drivers : list string;
  ra_risk_level : string;
  cost_range : Q * Q;
  timeline_range : Q * Q
}.

Section RiskDrivers.
Variable py_sqrt : Q -> Q.

(** [RiskSimulator.analyze_risk_drivers]; [fuel] is the fuel of the
    critical-path loops. *)
Definition analyze_risk_drivers (fuel : nat) (p : Project) (r : SimulationResult)
    : res RiskAnalysis :=
  let cost_cv := if Qltb 0 (cost_mean r) then cost_std py_sqrt r / cost_mean r else 0 in
  let timeline_cv :=
    if Qltb 0 (timeline_mean r) then timeline_std py_sqrt r / timeline_mean r else 0 in
  let d1 := if String.eqb (risk_level p) "high"
            then ["High inherent project risk level"] else [] in
  let d2 := if Qltb (inject_Z (team_size p)) (inject_Z (task_count p) / 2)
            then ["Limited team resources relative to task count"] else [] in
  let d3 := if Qltb (2 # 10) cost_cv then ["High cost variability"] else [] in
  let d4 := if Qltb (2 # 10) timeline_cv then ["High timeline uncertainty"] else [] in
  critical_path <- get_critical_path fuel p ;;
  let d5 := if Qltb (inject_Z (task_count p) * (6 # 10))
                    (inject_Z (Z.of_nat (List.length critical_path)))
            then ["Long critical path with many dependencies"] else [] in
  let drivers := (d1 ++ d2 ++ d3 ++ d4 ++ d5)%list in
  c10 <- get_cost_percentile r 10 ;; c90 <- get_cost_percentile r 90 ;;
  t10 <- get_timeline_percentile r 10 ;; t90 <- get_timeline_percentile r 90 ;;
  Ok (mkRiskAnalysis cost_cv timeline_cv
        (match drivers with [] => ["Low risk project with stable estimates"] | _ => drivers end)
        (risk_level p) (c10, c90) (t10, t90)).
End RiskDrivers.

(** ** Specification-side definitions *)

(** Forward propagation over a given topological order, as the spec words
    it: each task's finish is the max of its dependencies' finishes plus its
    own duration; the result is the max finish over all tasks. *)
Fixpoint spec_topo_finish (order : list Task) (finish : PyDict.t Q) : PyDict.t Q :=
  match order with
  | [] => finish
  | t :: r =>
    let e := fold_left (fun e d => Qmax e (match PyDict.get d finish with
                                           | Some f => f | None => 0 end))
                       (dependencies t) 0 in
    spec_topo_finish r (PyDict.set (task_id t) (e + estimated_days t) finish)
  end.

Definition spec_topo_makespan (order : list Task) : Q :=
  fold_left Qmax (PyDict.values (spec_topo_finish order [])) 0.

(** The task-level dependency relation: [depends_on p x y] when a task of
    [p] with id [x] declares the dependency [y]. *)
Definition depends_on (p : Project) (x y : string) : Prop :=
  exists t, In t (tasks p) /\ task_id t = x /\ In y (dependencies t).

(** The dependency graph has a cycle. *)
Definition has_dependency_cycle (p : Project) : Prop :=
  exists x, clos_trans string (depends_on p) x x.

Definition unique_task_ids (p : Project) : Prop := NoDup (map task_id (tasks p)).

(** Every value of a float-valued dict is at most [b]. *)
Definition bounded_by (b : Q) (d : PyDict.t Q) : Prop :=
  forall v, In v (PyDict.values d) -> v <= b.

(** The invariant of the scheduler loop, for a total duration [T]: the clock
    and every recorded finish time are at most [T] minus the durations of
    the tasks not yet started, which is itself non-negative. *)
Definition sim_inv (T : Q) (s : SimState) : Prop :=
  let B := T - py_sum (map estimated_days (remaining s)) in
  0 <= B /\ now s <= B /\ bounded_by B (sched_finish s) /\
  (forall t, In t (remaining s) -> 0 < estimated_days t).

(** Edges of the adjacency dict as [has_cycle] follows them. *)
Definition graph_edge (g : PyDict.t (list string)) (x y : string) : Prop :=
  In y (graph_get g x).

(** The finished ("black") nodes, [visited] minus [rec_stack], only point to
    finished nodes, and none of them lies on a cycle. *)
Definition black_closed (g : PyDict.t (list string)) (V R : list string) : Prop :=
  forall x, In x V -> ~ In x R -> forall y, graph_edge g x y -> In y V /\ ~ In y R.

Definition black_acyclic (g : PyDict.t (list string)) (V R : list string) : Prop :=
  forall x, In x V -> ~ In x R -> ~ clos_trans string (graph_edge g) x x.

(** The nodes of [U] not yet visited, counted with repetition. *)
Definition unvisited_count (U V : list string) : nat :=
  List.length (filter (fun x => negb (str_mem x V)) U).

(** Each task of the list is a declared dependency of the one after it. *)
Fixpoint dep_chain (l : list Task) : Prop :=
  match l with
  | a :: ((b :: _) as r) => In (task_id a) (dependencies b) /\ dep_chain r
  | _ => True
  end.

(** ** Concrete inputs used below *)

Definition chain_A : Task := Task_init "A" 5 1000 [] None.
Definition chain_B : Task := Task_init "B" 10 1000 ["a"] None.
Definition chain_C : Task := Task_init "C" 3 1000 ["b"] None.

(** The project of the three chained tasks, with two workers. *)
Definition chain_project : Project := mkProject "P" [chain_A; chain_B; chain_C] 2 "low" "".

(** A generator for [random] whose uniform draws are the lower bound of the
    range and whose Gaussian draws are the mean; its state counts the draws. *)
Definition low_uniform (a b : Q) (s : nat) : Q * nat := (a, S s).
Definition zero_gauss (mu sigma : Q) (s : nat) : Q * nat := (mu, S s).

Definition dangling_A : Task := Task_init "A" 1 1 ["ghost"] None.
Definition dangling_B : Task := Task_init "B" 1 1 [] None.

(** The scheduler state reached on [[dangling_A; dangling_B]] with one worker,
    after task B has run. *)
Definition dangling_stuck : SimState :=
  mkSim [dangling_A] [] [("b", 0%Q)] [("b", 1%Q)] 0.

(* ================================================================== *)
(** * Lemmas *)

Lemma bind_ok {A B} (r : res A) (k : A -> res B) (b : B) :
  bind r k = Ok b -> exists a, r = Ok a /\ k a = Ok b.
Proof. destruct r; simpl; intros H; try discriminate; eauto. Qed.

Lemma Qltb_true a b : Qltb a b = true <-> a < b.
Proof.
  unfold Qltb. rewrite negb_true_iff. split; intros H.
  - apply Qnot_le_lt. intros Hle. apply Qle_bool_iff in Hle. congruence.
  - destruct (Qle_bool b a) eqn:E; auto. apply Qle_bool_iff in E. exfalso.
    apply (Qlt_not_le a b); auto.
Qed.

Lemma Qltb_false a b : Qltb a b = false <-> b <= a.
Proof.
  unfold Qltb. rewrite negb_false_iff. apply Qle_bool_iff.
Qed.

(** *** Python [min] and [max] of a list *)

Lemma py_min_spec (x : Q) (xs : list Q) :
  In (py_min x xs) (x :: xs) /\ Forall (fun y => py_min x xs <= y) (x :: xs).
Proof.
  unfold py_min. revert x. induction xs as [|y ys IH]; intros x; simpl.
  - split; [auto | constructor; [apply Qle_refl | constructor]].
  - destruct (IH (py_min2 x y)) as [Hin Hall].
    inversion Hall as [|? ? Hm Hrest]; subst.
    assert (Hxy : py_min2 x y <= x /\ py_min2 x y <= y /\ (py_min2 x y = x \/ py_min2 x y = y)).
    { unfold py_min2. destruct (Qltb y x) eqn:E.
      - apply Qltb_true in E. repeat split; [apply Qlt_le_weak; auto | apply Qle_refl | auto].
      - apply Qltb_false in E. repeat split; [apply Qle_refl | auto | auto]. }
    destruct Hxy as [H1 [H2 H3]]. split.
    + destruct Hin as [Hin | Hin].
      * rewrite <- Hin. destruct H3 as [H3 | H3]; rewrite H3; simpl; auto.
      * simpl; auto.
    + constructor; [eapply Qle_trans; eauto|]. constructor; [eapply Qle_trans; eauto|].
      exact Hrest.
Qed.

Lemma py_max_spec (x : Q) (xs : list Q) :
  In (py_max x xs) (x :: xs) /\ Forall (fun y => y <= py_max x xs) (x :: xs).
Proof.
  unfold py_max. revert x. induction xs as [|y ys IH]; intros x; simpl.
  - split; [auto | constructor; [apply Qle_refl | constructor]].
  - destruct (IH (py_max2 x y)) as [Hin Hall].
    inversion Hall as [|? ? Hm Hrest]; subst.
    assert (Hxy : x <= py_max2 x y /\ y <= py_max2 x y /\ (py_max2 x y = x \/ py_max2 x y = y)).
    { unfold py_max2. destruct (Qltb x y) eqn:E.
      - apply Qltb_true in E. repeat split; [apply Qlt_le_weak; auto | apply Qle_refl | auto].
      - apply Qltb_false in E. repeat split; [apply Qle_refl | auto | auto]. }
    destruct Hxy as [H1 [H2 H3]]. split.
    + destruct Hin as [Hin | Hin].
      * rewrite <- Hin. destruct H3 as [H3 | H3]; rewrite H3; simpl; auto.
      * simpl; auto.
    + constructor; [eapply Qle_trans; eauto|]. constructor; [eapply Qle_trans; eauto|].
      exact Hrest.
Qed.

(** *** The stable insertion sort *)

Lemma insert_by_perm {A} (lt : A -> A -> bool) x l : Permutation (insert_by lt x l) (x :: l).
Proof.
  induction l as [|y r IH]; simpl; auto.
  destruct (lt x y); auto.
  eapply perm_trans; [apply perm_skip; exact IH | apply perm_swap].
Qed.

Lemma py_sorted_by_perm {A} (lt : A -> A -> bool) l : Permutation (py_sorted_by lt l) l.
Proof.
  unfold py_sorted_by.
  assert (H : forall acc, Permutation (fold_left (fun acc x => insert_by lt x acc) l acc) (l ++ acc)).
  { induction l as [|x r IH]; intros acc; simpl; auto.
    eapply perm_trans; [apply IH|].
    eapply perm_trans; [apply Permutation_app_head; apply insert_by_perm|].
    apply Permutation_sym, Permutation_middle. }
  specialize (H []). rewrite app_nil_r in H. exact H.
Qed.

Lemma insert_sorted x l : Sorted Qle l -> Sorted Qle (insert_by Qltb x l).
Proof.
  induction 1 as [|y r Hs IH Hhd]; simpl.
  - repeat constructor.
  - destruct (Qltb x y) eqn:E.
    + apply Qltb_true in E. constructor; [constructor; auto|].
      constructor. apply Qlt_le_weak; auto.
    + apply Qltb_false in E. constructor; [exact IH|].
      destruct r as [|z r']; simpl.
      * constructor; auto.
      * destruct (Qltb x z); constructor; auto.
        inversion Hhd; auto.
Qed.

Lemma py_sorted_sorted l : Sorted Qle (py_sorted_by Qltb l).
Proof.
  unfold py_sorted_by.
  assert (H : forall acc, Sorted Qle acc ->
              Sorted Qle (fold_left (fun acc x => insert_by Qltb x acc) l acc)).
  { induction l as [|x r IH]; intros acc Hacc; simpl; auto.
    apply IH, insert_sorted, Hacc. }
  apply H; constructor.
Qed.

Lemma strongly_sorted_last (l : list Q) (a : Q) :
  StronglySorted Qle (l ++ [a]) -> forall x, In x l -> x <= a.
Proof.
  induction l as [|y r IH]; simpl; intros Hs x Hx; [contradiction|].
  inversion Hs as [|? ? Hs' Hall]; subst.
  destruct Hx as [<- | Hx].
  - rewrite Forall_forall in Hall. apply Hall, in_or_app. right; simpl; auto.
  - apply IH; auto.
Qed.

Lemma py_int_floor (q : Q) : 0 <= q -> py_int q = Qfloor q.
Proof.
  destruct q as [a b]. unfold py_int, Qfloor, Qle. simpl. intros H.
  apply Z.quot_div_nonneg; lia.
Qed.

Lemma py_int_scale0 n : py_int (inject_Z n * (0 / 100)) = 0%Z.
Proof.
  unfold py_int. cbn [Qnum Qden Qmult Qdiv Qinv inject_Z].
  rewrite Z.mul_0_r. reflexivity.
Qed.

Lemma py_int_scale100 n : py_int (inject_Z n * (100 / 100)) = n.
Proof.
  unfold py_int. cbn [Qnum Qden Qmult Qdiv Qinv inject_Z].
  change (Z.pos (1 * (1 * 100))) with 100%Z. change (100 * 1)%Z with 100%Z.
  apply Z.quot_mul. lia.
Qed.

Lemma py_index_nth {A} (l : list A) (i : nat) (a : A) :
  nth_error l i = Some a -> py_index l (Z.of_nat i) = Ok a.
Proof.
  intros H. unfold py_index.
  replace (0 <=? Z.of_nat i)%Z with true by (symmetry; apply Z.leb_le; lia).
  replace (Z.of_nat i <? 0)%Z with false by (symmetry; apply Z.ltb_ge; lia).
  rewrite Nat2Z.id, H. reflexivity.
Qed.

Lemma sorted_head_min (x : Q) (r l : list Q) :
  Sorted Qle (x :: r) -> Permutation (x :: r) l -> In x l /\ forall y, In y l -> x <= y.
Proof.
  intros Hs Hp. apply Sorted_StronglySorted in Hs; [|exact Qle_trans].
  split.
  - eapply Permutation_in; [exact Hp | left; reflexivity].
  - intros y Hy. apply (Permutation_in _ (Permutation_sym Hp)) in Hy.
    destruct Hy as [<- | Hy]; [apply Qle_refl|].
    inversion Hs as [|? ? _ Hall]; subst. rewrite Forall_forall in Hall. auto.
Qed.

(** [calculate_percentile] on a non-empty list at percentile 0 and 100. *)
Lemma percentile_ends (c : Q) (cs : list Q) :
  (exists m, calculate_percentile (c :: cs) 0 = Ok m /\ m == py_min c cs) /\
  (exists M, calculate_percentile (c :: cs) 100 = Ok M /\ M == py_max c cs).
Proof.
  pose proof (py_sorted_by_perm Qltb (c :: cs)) as Hp.
  pose proof (py_sorted_sorted (c :: cs)) as Hs.
  remember (py_sorted_by Qltb (c :: cs)) as sv eqn:Esv.
  assert (Hlen : List.length sv = S (List.length cs)) by (rewrite (Permutation_length Hp); reflexivity).
  destruct (py_min_spec c cs) as [Hmin_in Hmin_le].
  destruct (py_max_spec c cs) as [Hmax_in Hmax_le].
  rewrite Forall_forall in Hmin_le, Hmax_le.
  unfold calculate_percentile. rewrite <- Esv.
  split.
  - destruct sv as [|x r]; [discriminate|].
    destruct (sorted_head_min x r _ Hs Hp) as [Hx_in Hx_le].
    exists x. split.
    + assert (Hi : Z.min (py_int (inject_Z (Z.of_nat (List.length (x :: r))) * (0 / 100)))
                     (Z.of_nat (List.length (x :: r)) - 1) = Z.of_nat 0).
      { rewrite py_int_scale0. cbn [List.length]. lia. }
      rewrite Hi. apply py_index_nth. reflexivity.
    + apply Qle_antisym.
      * apply Hx_le. exact Hmin_in.
      * apply Hmin_le. exact Hx_in.
  - assert (Hne : sv <> []) by (intros E; rewrite E in Hlen; discriminate).
    destruct (exists_last Hne) as [l' [a Ea]].
    assert (Hsa : StronglySorted Qle (l' ++ [a])).
    { rewrite <- Ea. apply Sorted_StronglySorted; [exact Qle_trans | exact Hs]. }
    assert (Ha_in : In a (c :: cs)).
    { eapply Permutation_in; [exact Hp|]. rewrite Ea. apply in_or_app; right; simpl; auto. }
    assert (Ha_ge : forall y, In y (c :: cs) -> y <= a).
    { intros y Hy. apply (Permutation_in _ (Permutation_sym Hp)) in Hy. rewrite Ea in Hy.
      apply in_app_or in Hy. destruct Hy as [Hy | [<- | []]].
      - eapply strongly_sorted_last; eauto.
      - apply Qle_refl. }
    exists a. split.
    + assert (Hi : Z.min (py_int (inject_Z (Z.of_nat (List.length sv)) * (100 / 100)))
                     (Z.of_nat (List.length sv) - 1) = Z.of_nat (List.length l')).
      { rewrite py_int_scale100. rewrite Ea, length_app. simpl. lia. }
      destruct sv as [|x r]; [contradiction|]. rewrite Hi. apply py_index_nth.
      rewrite Ea, nth_error_app2 by lia. rewrite Nat.sub_diag. reflexivity.
    + apply Qle_antisym.
      * apply Hmax_le. exact Ha_in.
      * apply Ha_ge. exact Hmax_in.
Qed.

Lemma str_mem_In s xs : str_mem s xs = true <-> In s xs.
Proof.
  unfold str_mem. rewrite existsb_exists. split.
  - intros [x [Hx E]]. apply String.eqb_eq in E. subst; auto.
  - intros H. exists s. split; auto. apply String.eqb_refl.
Qed.

Lemma substring0_length (n : nat) (s : string) : (String.length (substring 0 n s) <= n)%nat.
Proof.
  revert n. induction s as [|c s IH]; intros [|n]; simpl; try lia.
  specialize (IH n). lia.
Qed.

(* ================================================================== *)
(** * Claims *)

(** ** Construction *)

(** C1 (amended): [Project] construction fails exactly when the team size is
    not positive, the task list is empty or the lowercased risk level is not
    one of low, medium, high, and otherwise returns the project with the
    risk level lowercased; [Task] construction checks nothing and keeps
    whatever duration and daily cost it is given. *)
Theorem construction_checks :
  (forall nm ts team risk desc,
     match Project_init nm ts team risk desc with
     | Ok p => (0 < team)%Z /\ ts <> [] /\ In (py_lower risk) valid_risk_levels
               /\ p = mkProject nm ts team (py_lower risk) desc
     | Err _ => ~ ((0 < team)%Z /\ ts <> [] /\ In (py_lower risk) valid_risk_levels)
     | OutOfFuel => False
     end) /\
  (forall nm days cost deps tid,
     estimated_days (Task_init nm days cost deps tid) = days /\
     cost_per_day (Task_init nm days cost deps tid) = cost).
Proof.
  split.
  - intros nm ts team risk desc. unfold Project_init.
    destruct (team <=? 0)%Z eqn:E1.
    + apply Z.leb_le in E1. intros [H _]. lia.
    + apply Z.leb_gt in E1. destruct ts as [|t ts].
      * intros [_ [H _]]. apply H; reflexivity.
      * destruct (str_mem (py_lower risk) valid_risk_levels) eqn:E2; cbn [negb].
        -- apply str_mem_In in E2. repeat split; auto. discriminate.
        -- intros [_ [_ H]]. apply str_mem_In in H. congruence.
  - intros; split; reflexivity.
Qed.

(** C1, counterexample: a task with a negative duration is constructed and
    accepted into a project. *)
Lemma nonpositive_task_accepted :
  let t := Task_init "A" (-1) 10 [] None in
  Project_init "P" [t] 1 "low" "" = Ok (mkProject "P" [t] 1 "low" "") /\
  ~ (0 < estimated_days t).
Proof.
  simpl. split; [reflexivity|]. intros H. apply Qlt_not_le in H. apply H.
  apply Qle_bool_iff. reflexivity.
Qed.

(** C9 (amended): a task built without an id gets the name lowercased, with
    spaces replaced by underscores, cut to its first 20 characters; project
    construction does not look at task ids, so a task list with a repeated
    task (hence a repeated id) is accepted like any other. *)
Theorem derived_task_id :
  (forall nm days cost deps,
     task_id (Task_init nm days cost deps None) = substring 0 20 (replace_space (py_lower nm)) /\
     (String.length (task_id (Task_init nm days cost deps None)) <= 20)%nat) /\
  (forall nm t ts team risk desc,
     Project_init nm (t :: t :: ts) team risk desc =
     if (team <=? 0)%Z then Err "Team size must be at least 1"
     else if str_mem (py_lower risk) valid_risk_levels
          then Ok (mkProject nm (t :: t :: ts) team (py_lower risk) desc)
          else Err "Risk level must be one of ['low', 'medium', 'high']").
Proof.
  split.
  - intros. split; [reflexivity|]. apply substring0_length.
  - intros. unfold Project_init. destruct (team <=? 0)%Z; [reflexivity|].
    destruct (str_mem (py_lower risk) valid_risk_levels); reflexivity.
Qed.

(** C9, counterexample: two tasks named "A" and "a" get the same derived id
    and the project is constructed. *)
Lemma duplicate_task_ids_accepted :
  let t1 := Task_init "A" 1 1 [] None in
  let t2 := Task_init "a" 2 1 [] None in
  Project_init "P" [t1; t2] 2 "low" "" = Ok (mkProject "P" [t1; t2] 2 "low" "") /\
  task_id t1 = "a" /\ task_id t2 = "a" /\ ~ NoDup (map task_id [t1; t2]).
Proof.
  simpl. repeat split; try reflexivity.
  intros H. inversion H as [|? ? Hn _]; subst. apply Hn. simpl. auto.
Qed.

(** ** Statistics *)

(** C7: the percentile sorts the series ascending and takes the element at
    index floor(n * p / 100) clamped to n - 1 (for p >= 0); at 0 it is the
    minimum of the series and at 100 its maximum. *)
Theorem cost_percentile_nearest_rank (c : Q) (cs tl : list Q) (it : Z) (p : Q)
    (Hp : 0 <= p) :
  let r := mkResult (c :: cs) tl it in
  let sv := py_sorted_by Qltb (c :: cs) in
  let n := Z.of_nat (List.length sv) in
  Sorted Qle sv /\ Permutation sv (c :: cs) /\
  get_cost_percentile r p = py_index sv (Z.min (Qfloor (inject_Z n * (p / 100))) (n - 1)) /\
  (exists m, get_cost_percentile r 0 = Ok m /\ m == py_min c cs) /\
  (exists M, get_cost_percentile r 100 = Ok M /\ M == py_max c cs).
Proof.
  intros r sv n.
  split; [apply py_sorted_sorted|]. split; [apply py_sorted_by_perm|].
  destruct (percentile_ends c cs) as [H0 H100].
  split; [|split; [exact H0 | exact H100]].
  unfold get_cost_percentile, calculate_percentile. simpl costs.
  rewrite py_int_floor; [reflexivity|].
  apply Qmult_le_0_compat.
  - unfold Qle; simpl; lia.
  - apply Qmult_le_0_compat; [exact Hp | apply Qle_bool_iff; reflexivity].
Qed.

Lemma cost_percentile_nearest_rank_witness :
  0 <= 50 /\
  (let r := mkResult [3; 1; 2] [] 100 in
   let sv := py_sorted_by Qltb [3; 1; 2] in
   let n := Z.of_nat (List.length sv) in
   Sorted Qle sv /\ Permutation sv [3; 1; 2] /\
   get_cost_percentile r 50 = py_index sv (Z.min (Qfloor (inject_Z n * (50 / 100))) (n - 1)) /\
   (exists m, get_cost_percentile r 0 = Ok m /\ m == py_min 3 [1; 2]) /\
   (exists M, get_cost_percentile r 100 = Ok M /\ M == py_max 3 [1; 2])).
Proof.
  split; [apply Qle_bool_iff; reflexivity|].
  apply (cost_percentile_nearest_rank 3 [1; 2] [] 100 50).
  apply Qle_bool_iff; reflexivity.
Defined.

(** C10: the statistics of an empty series are 0.0, and the percentile of an
    empty list is 0.0. *)
Theorem empty_series_statistics :
  (forall (sqrt : Q -> Q) tl it,
     cost_mean (mkResult [] tl it) = 0 /\ cost_std sqrt (mkResult [] tl it) = 0) /\
  (forall (sqrt : Q -> Q) cs it,
     timeline_mean (mkResult cs [] it) = 0 /\ timeline_std sqrt (mkResult cs [] it) = 0) /\
  (forall p, calculate_percentile [] p = Ok 0).
Proof. repeat split. Qed.

(** ** Dictionary facts *)

Lemma get_set_eq {V} (k : string) (v : V) d : PyDict.get k (PyDict.set k v d) = Some v.
Proof.
  induction d as [|[k' v'] r IH]; simpl.
  - rewrite String.eqb_refl; reflexivity.
  - destruct (String.eqb k k') eqn:E; simpl; rewrite E; auto.
Qed.

Lemma get_set_neq {V} (k k' : string) (v : V) d :
  k <> k' -> PyDict.get k (PyDict.set k' v d) = PyDict.get k d.
Proof.
  intros Hne. induction d as [|[k'' v'] r IH]; simpl.
  - destruct (String.eqb k k') eqn:E; auto. apply String.eqb_eq in E; congruence.
  - destruct (String.eqb k' k'') eqn:E1; simpl.
    + apply String.eqb_eq in E1; subst.
      destruct (String.eqb k k'') eqn:E2; auto. apply String.eqb_eq in E2; congruence.
    + destruct (String.eqb k k''); auto.
Qed.

Lemma get_set_some {V} (k k' : string) (v : V) d :
  PyDict.get k d <> None -> PyDict.get k (PyDict.set k' v d) <> None.
Proof.
  intros H. destruct (String.eqb k k') eqn:E.
  - apply String.eqb_eq in E; subst. rewrite get_set_eq. discriminate.
  - rewrite get_set_neq; auto. intros ->. rewrite String.eqb_refl in E. discriminate.
Qed.

(** ** The Monte Carlo loop *)

Section RandomFacts.
Variable Rng : Type.
Variable uniform : Q -> Q -> Rng -> Q * Rng.
Variable gauss : Q -> Q -> Rng -> Q * Rng.

Lemma perturb_tasks_keys p ts total durations g :
  let '(_, durations', _) := perturb_tasks Rng uniform p ts total durations g in
  (forall k, PyDict.get k durations <> None -> PyDict.get k durations' <> None) /\
  (forall t, In t ts -> PyDict.get (task_id t) durations' <> None).
Proof.
  revert total durations g. induction ts as [|t r IH]; intros total durations g; simpl.
  - split; [auto | intros _ []].
  - destruct (uniform _ _ g) as [cm g1].
    destruct (uniform _ _ g1) as [tm g2].
    specialize (IH (total + base_cost t * cm)
                   (PyDict.set (task_id t) (estimated_days t * tm) durations) g2).
    destruct (perturb_tasks Rng uniform p r _ _ g2) as [[tot d'] g'].
    destruct IH as [Hkeep Hall]. split.
    + intros k Hk. apply Hkeep, get_set_some, Hk.
    + intros t' [<- | Ht']; auto.
      apply Hkeep. rewrite get_set_eq. discriminate.
Qed.

Lemma scenario_finish_ok durations ts finish :
  (forall t, In t ts -> PyDict.get (task_id t) durations <> None) ->
  exists f, scenario_finish durations ts finish = Ok f.
Proof.
  revert finish. induction ts as [|t r IH]; intros finish H; simpl; eauto.
  unfold PyDict.lookup. destruct (PyDict.get (task_id t) durations) eqn:E.
  - simpl. apply IH. intros; apply H; simpl; auto.
  - exfalso. apply (H t); simpl; auto.
Qed.

Lemma single_scenario_ok p g :
  team_size p <> 0%Z -> exists c t g', simulate_single_scenario Rng uniform gauss p g = Ok (c, t, g').
Proof.
  intros Hteam. unfold simulate_single_scenario.
  pose proof (perturb_tasks_keys p (tasks p) 0 [] g) as Hk.
  destruct (perturb_tasks Rng uniform p (tasks p) 0 [] g) as [[total durations] g1].
  destruct Hk as [_ Hall].
  destruct (scenario_finish_ok durations (tasks p) [] Hall) as [f Hf].
  unfold calculate_scenario_timeline. rewrite Hf. simpl.
  destruct (team_size p <? task_count p)%Z.
  - replace (team_size p =? 0)%Z with false by (symmetry; apply Z.eqb_neq; auto).
    destruct (uniform _ _ g1) as [u g2]. simpl.
    destruct (get_risk_factor Rng gauss p g2) as [rf g3]. eauto.
  - simpl. destruct (get_risk_factor Rng gauss p g1) as [rf g3]. eauto.
Qed.

Lemma simulation_trials_length p k cs tl g :
  team_size p <> 0%Z ->
  exists cs' tl' g', simulation_trials Rng uniform gauss p k cs tl g = Ok (cs', tl', g') /\
    List.length cs' = (List.length cs + k)%nat /\ List.length tl' = (List.length tl + k)%nat.
Proof.
  intros Hteam. revert cs tl g. induction k as [|k IH]; intros cs tl g; simpl.
  - exists cs, tl, g. repeat split; lia.
  - destruct (single_scenario_ok p g Hteam) as [c [t [g' E]]]. rewrite E. simpl.
    destruct (IH (cs ++ [c])%list (tl ++ [t])%list g') as [cs' [tl' [g'' [E' [L1 L2]]]]].
    exists cs', tl', g''. rewrite length_app in L1, L2. simpl in L1, L2.
    repeat split; auto; lia.
Qed.

(** C8: for every constructed project and every requested count [n], the
    simulation returns a result whose cost and timeline sequences both have
    length max(100, n): a request below 100 is raised to 100. *)
Theorem run_simulation_lengths nm ts team risk desc p n g
    (Hp : Project_init nm ts team risk desc = Ok p) :
  exists r g', run_simulation Rng uniform gauss (RiskSimulator_init p n) g = Ok (r, g') /\
    List.length (costs r) = Z.to_nat (Z.max 100 n) /\
    List.length (timelines r) = Z.to_nat (Z.max 100 n) /\
    iterations r = Z.max 100 n.
Proof.
  assert (Hteam : team_size p <> 0%Z).
  { unfold Project_init in Hp. destruct (team <=? 0)%Z eqn:E; [discriminate|].
    apply Z.leb_gt in E. destruct ts; [discriminate|].
    destruct (negb _); [discriminate|]. injection Hp as <-. simpl. lia. }
  unfold run_simulation, RiskSimulator_init. simpl.
  destruct (simulation_trials_length p (Z.to_nat (Z.max 100 n)) [] [] g Hteam)
    as [cs [tl [g' [E [L1 L2]]]]].
  rewrite E. simpl. exists (mkResult cs tl (Z.max 100 n)), g'.
  simpl in *. repeat split; auto.
Qed.
End RandomFacts.

Lemma run_simulation_lengths_witness :
  Project_init "P" [chain_A] 1 "low" "" = Ok (mkProject "P" [chain_A] 1 "low" "") /\
  exists r g', run_simulation nat (fun lo _ s => (lo, S s)) (fun mu _ s => (mu, S s))
                 (RiskSimulator_init (mkProject "P" [chain_A] 1 "low" "") 7) 0%nat = Ok (r, g') /\
    List.length (costs r) = Z.to_nat (Z.max 100 7) /\
    List.length (timelines r) = Z.to_nat (Z.max 100 7) /\
    iterations r = Z.max 100 7.
Proof.
  split; [reflexivity|].
  apply (run_simulation_lengths nat (fun lo _ s => (lo, S s)) (fun mu _ s => (mu, S s))
           "P" [chain_A] 1 "low" "" (mkProject "P" [chain_A] 1 "low" "") 7 0%nat).
  reflexivity.
Defined.

(** ** The scheduler and the critical path on concrete projects *)

(** C2 (code bug): with enough workers the schedule is one pass over the
    tasks in insertion order, and a dependency listed later than its
    dependent is skipped.  On [[B (10 days, depends on a); A (5 days)]] with
    two workers the scheduler returns 10, while forward propagation over the
    topological order [[A; B]] gives 15. *)
Theorem schedule_depends_on_insertion_order :
  Project_init "P" [chain_B; chain_A] 2 "low" ""
    = Ok (mkProject "P" [chain_B; chain_A] 2 "low" "") /\
  (forall fuel, simulate_resource_constrained_schedule fuel
                  (mkProject "P" [chain_B; chain_A] 2 "low" "") = Ok 10) /\
  spec_topo_makespan [chain_A; chain_B] = 15.
Proof. split; [reflexivity|]. split; [intros; reflexivity|]. reflexivity. Qed.

Lemma dangling_stuck_step : sim_step 1 dangling_stuck = Ok (Continue dangling_stuck).
Proof. reflexivity. Qed.

Lemma dangling_stuck_loop : forall fuel, sim_loop fuel 1 dangling_stuck = OutOfFuel.
Proof.
  induction fuel as [|f IH]; [reflexivity|].
  change (sim_loop (S f) 1 dangling_stuck)
    with (o <- sim_step 1 dangling_stuck ;;
          match o with Continue s' => sim_loop f 1 s' | Break s' => Ok s' end).
  rewrite dangling_stuck_step. exact IH.
Qed.

(** C3 (code bug): with one worker and the tasks [[A (depends on the
    unknown id "ghost"); B]], the scheduler never finishes: once B has run,
    A is never ready (its dependency has no recorded finish) and the clock
    is set back to 0, the default finish of the unknown dependency, at every
    iteration. *)
Theorem dangling_dependency_diverges :
  Project_init "P" [dangling_A; dangling_B] 1 "low" ""
    = Ok (mkProject "P" [dangling_A; dangling_B] 1 "low" "") /\
  forall fuel, simulate_resource_constrained_schedule fuel
                 (mkProject "P" [dangling_A; dangling_B] 1 "low" "") = OutOfFuel.
Proof.
  split; [reflexivity|].
  intros [|[|f]]; [reflexivity | reflexivity |].
  transitivity (s <- sim_loop f 1 dangling_stuck ;; Ok (max_values (sched_finish s))).
  - reflexivity.
  - rewrite dangling_stuck_loop. reflexivity.
Qed.

(** C6: for the chain A (5 days) -> B (10 days) -> C (3 days), in any
    insertion order and for any team size, the critical path is [[A; B; C]]
    (for every fuel from 10 on) and its duration is 18. *)
Theorem chain_critical_path :
  forall nm team risk desc f,
    Forall (fun ts => get_critical_path (10 + f) (mkProject nm ts team risk desc)
                      = Ok [chain_A; chain_B; chain_C])
      [[chain_A; chain_B; chain_C]; [chain_A; chain_C; chain_B];
       [chain_B; chain_A; chain_C]; [chain_B; chain_C; chain_A];
       [chain_C; chain_A; chain_B]; [chain_C; chain_B; chain_A]] /\
    py_sum (map estimated_days [chain_A; chain_B; chain_C]) = 18.
Proof.
  intros. split; [|reflexivity].
  repeat apply Forall_cons; try apply Forall_nil; reflexivity.
Qed.

(** ** Bounds on the timelines *)

Lemma fold_Qplus_shift (l : list Q) (a : Q) : fold_left Qplus l a == a + fold_left Qplus l 0.
Proof.
  revert a. induction l as [|x r IH]; intros a; simpl.
  - lra.
  - rewrite (IH (a + x)), (IH (0 + x)). lra.
Qed.

Lemma py_sum_cons (x : Q) (l : list Q) : py_sum (x :: l) == x + py_sum l.
Proof. unfold py_sum. simpl. rewrite fold_Qplus_shift. lra. Qed.

Lemma py_sum_app (l1 l2 : list Q) : py_sum (l1 ++ l2) == py_sum l1 + py_sum l2.
Proof.
  induction l1 as [|x r IH]; simpl.
  - unfold py_sum at 2. simpl. lra.
  - rewrite !py_sum_cons, IH. lra.
Qed.

Lemma py_sum_perm (l1 l2 : list Q) : Permutation l1 l2 -> py_sum l1 == py_sum l2.
Proof.
  induction 1.
  - reflexivity.
  - rewrite !py_sum_cons. lra.
  - rewrite !py_sum_cons. lra.
  - lra.
Qed.

Lemma py_sum_nonneg (l : list Q) : Forall (fun x => 0 <= x) l -> 0 <= py_sum l.
Proof.
  induction 1 as [|x r Hx _ IH]; [apply Qle_refl|].
  rewrite py_sum_cons. lra.
Qed.

(** Durations of a task list. *)
Lemma days_sum_cons (t : Task) (l : list Task) :
  py_sum (map estimated_days (t :: l)) == estimated_days t + py_sum (map estimated_days l).
Proof. apply py_sum_cons. Qed.

Lemma days_sum_nonneg (l : list Task) :
  (forall t, In t l -> 0 <= estimated_days t) -> 0 <= py_sum (map estimated_days l).
Proof.
  intros H. apply py_sum_nonneg. apply Forall_forall. intros x Hx.
  apply in_map_iff in Hx. destruct Hx as [t [<- Ht]]. auto.
Qed.

Lemma get_in_values {V} (k : string) (v : V) d : PyDict.get k d = Some v -> In v (PyDict.values d).
Proof.
  induction d as [|[k' v'] r IH]; simpl; [discriminate|].
  destruct (String.eqb k k'); [injection 1 as <-; auto | auto].
Qed.

Lemma values_set {V} (k : string) (v : V) d x :
  In x (PyDict.values (PyDict.set k v d)) -> x = v \/ In x (PyDict.values d).
Proof.
  induction d as [|[k' v'] r IH]; simpl.
  - intros [-> | []]; auto.
  - destruct (String.eqb k k'); simpl.
    + intros [-> | H]; auto.
    + intros [-> | H]; auto. destruct (IH H); auto.
Qed.

Lemma bounded_set b b' k v d :
  bounded_by b d -> b <= b' -> v <= b' -> bounded_by b' (PyDict.set k v d).
Proof.
  intros Hd Hb Hv x Hx. destruct (values_set _ _ _ _ Hx) as [-> | Hx']; auto.
  eapply Qle_trans; [apply Hd; exact Hx' | exact Hb].
Qed.

Lemma max_values_bounded b d : 0 <= b -> bounded_by b d -> max_values d <= b.
Proof.
  intros H0 Hd. unfold max_values.
  destruct (PyDict.values d) as [|v vs] eqn:E; auto.
  destruct (py_max_spec v vs) as [Hin _]. apply Hd. rewrite E. exact Hin.
Qed.

Lemma dep_start_bounded b finish t : 0 <= b -> bounded_by b finish -> dep_start finish t <= b.
Proof.
  intros H0 Hf. unfold dep_start.
  assert (H : forall deps e, e <= b ->
    fold_left (fun e dep => match PyDict.get dep finish with
                            | Some f => py_max2 e f | None => e end) deps e <= b).
  { induction deps as [|d r IH]; intros e He; simpl; auto.
    apply IH. destruct (PyDict.get d finish) eqn:E; auto.
    unfold py_max2. destruct (Qltb e q); auto.
    apply Hf. eapply get_in_values; eauto. }
  apply H; auto.
Qed.

(** The first loop of the scheduler finishes every task by the sum of the
    durations seen so far. *)
Lemma forward_pass_bounded ts start finish b :
  0 <= b -> bounded_by b finish -> (forall t, In t ts -> 0 <= estimated_days t) ->
  bounded_by (b + py_sum (map estimated_days ts)) (snd (forward_pass ts start finish)).
Proof.
  revert start finish b. induction ts as [|t r IH]; intros start finish b H0 Hf Hpos; simpl.
  - unfold py_sum; simpl. intros v Hv. rewrite Qplus_0_r. apply Hf, Hv.
  - assert (Ht : 0 <= estimated_days t) by (apply Hpos; simpl; auto).
    pose proof (dep_start_bounded b finish t H0 Hf) as Hds.
    specialize (IH (PyDict.set (task_id t) (dep_start finish t) start)
                   (PyDict.set (task_id t) (dep_start finish t + estimated_days t) finish)
                   (b + estimated_days t)).
    intros v Hv. eapply Qle_trans; [apply IH; [lra | | | exact Hv] |].
    + apply (bounded_set b); auto; lra.
    + intros; apply Hpos; simpl; auto.
    + rewrite py_sum_cons. lra.
Qed.

Lemma task_eqb_days a b : task_eqb a b = true -> estimated_days a == estimated_days b.
Proof.
  unfold task_eqb. intros H.
  repeat match goal with H : (_ && _) = true |- _ => apply andb_prop in H; destruct H end.
  apply Qeq_bool_iff. assumption.
Qed.

Lemma py_remove_sum x l l' :
  py_remove x l = Ok l' ->
  py_sum (map estimated_days l) == py_sum (map estimated_days l') + estimated_days x /\
  incl l' l.
Proof.
  revert l'. induction l as [|y r IH]; intros l' H; simpl in H; [discriminate|].
  destruct (task_eqb y x) eqn:E.
  - injection H as <-. split; [|intros z Hz; simpl; auto].
    rewrite days_sum_cons. apply task_eqb_days in E. lra.
  - apply bind_ok in H. destruct H as [r' [Hr H]]. injection H as <-.
    destruct (IH r' Hr) as [Hs Hi]. split.
    + rewrite !days_sum_cons, Hs. lra.
    + intros z [<- | Hz]; simpl; auto.
Qed.

Lemma start_tasks_inv T now0 cs rem act ss sf rem' act' ss' sf' :
  start_tasks now0 cs rem act ss sf = Ok (rem', act', ss', sf') ->
  (forall t, In t cs -> 0 <= estimated_days t) ->
  now0 <= T - py_sum (map estimated_days rem) ->
  bounded_by (T - py_sum (map estimated_days rem)) sf ->
  now0 <= T - py_sum (map estimated_days rem') /\
  T - py_sum (map estimated_days rem) <= T - py_sum (map estimated_days rem') /\
  bounded_by (T - py_sum (map estimated_days rem')) sf' /\
  incl rem' rem /\ List.length act' = (List.length act + List.length cs)%nat.
Proof.
  revert rem act ss sf. induction cs as [|t r IH]; intros rem act ss sf H Hpos Hnow Hsf; simpl in H.
  - injection H as <- <- <- <-.
    refine (conj Hnow (conj (Qle_refl _) (conj Hsf (conj (fun z Hz => Hz) _)))).
    simpl; lia.
  - apply bind_ok in H. destruct H as [rem1 [Hrem H]].
    destruct (py_remove_sum _ _ _ Hrem) as [Hsum Hincl].
    assert (Ht : 0 <= estimated_days t) by (apply Hpos; simpl; auto).
    edestruct (IH rem1 (act ++ [t])%list) as [H1 [H2 [H3 [H4 H5]]]];
      [exact H | intros; apply Hpos; simpl; auto | | |].
    + lra.
    + apply (bounded_set (T - py_sum (map estimated_days rem))); auto; lra.
    + repeat split; auto.
      * lra.
      * intros z Hz. apply Hincl, H4, Hz.
      * rewrite H5, length_app. simpl. lia.
Qed.

Lemma lookup_all_values sf ids fs :
  lookup_all sf ids = Ok fs -> forall f, In f fs -> In f (PyDict.values sf).
Proof.
  revert fs. induction ids as [|i r IH]; intros fs H; simpl in H.
  - injection H as <-. intros _ [].
  - apply bind_ok in H. destruct H as [v [Hv H]].
    apply bind_ok in H. destruct H as [rest [Hrest H]]. injection H as <-.
    unfold PyDict.lookup in Hv. destruct (PyDict.get i sf) eqn:E; [|discriminate].
    injection Hv as <-. intros f [<- | Hf].
    + eapply get_in_values; eauto.
    + eapply IH; eauto.
Qed.

Lemma sim_step_inv T team s o :
  (1 <= team)%Z -> sim_inv T s -> sim_step team s = Ok o ->
  sim_inv T (match o with Continue s' => s' | Break s' => s' end).
Proof.
  intros Hteam [H0 [Hnow [Hsf Hpos]]] H. unfold sim_step in H.
  apply bind_ok in H. destruct H as [act0 [Hret H]].
  apply bind_ok in H. destruct H as [[[[rem act] ss] sf] [Hst H]].
  set (cs := filter _ (remaining s)) in Hst.
  assert (Hcs : forall t, In t cs -> In t (remaining s)).
  { intros t Ht. apply filter_In in Ht. tauto. }
  destruct (start_tasks_inv T _ _ _ _ _ _ _ _ _ _ Hst) as [H1 [H2 [H3 [H4 H5]]]];
    [intros t Ht; apply Qlt_le_weak, Hpos, Hcs, Ht | exact Hnow | exact Hsf |].
  assert (Hpos' : forall t, In t rem -> 0 < estimated_days t) by (intros; apply Hpos, H4; auto).
  destruct act as [|a act'].
  - destruct rem as [|nt rest].
    + injection H as <-. unfold sim_inv; cbn [remaining now sched_finish].
      refine (conj _ (conj H1 (conj H3 Hpos'))). lra.
    + destruct (dependencies nt) as [|d ds] eqn:Ed.
      * exfalso.
        assert (Hc0 : cs = []) by (destruct cs; [reflexivity | simpl in H5; lia]).
        assert (Ha0 : act0 = []) by (destruct act0; [reflexivity | simpl in H5; lia]).
        rewrite Hc0 in Hst. simpl in Hst. injection Hst as Er _ _ _.
        unfold cs in Hc0. rewrite Er in Hc0. simpl in Hc0.
        unfold deps_complete in Hc0. rewrite Ed, Ha0 in Hc0. simpl in Hc0.
        replace (0 <? team)%Z with true in Hc0 by (symmetry; apply Z.ltb_lt; lia).
        discriminate.
      * injection H as <-. unfold sim_inv; cbn [remaining now sched_finish].
        refine (conj _ (conj _ (conj H3 Hpos'))); [lra|].
        assert (Hg : forall x, (match PyDict.get x sf with Some f => f | None => 0 end)
                               <= T - py_sum (map estimated_days (nt :: rest))).
        { intros x. destruct (PyDict.get x sf) eqn:E; [|lra].
          apply H3. eapply get_in_values; eauto. }
        match goal with |- py_max ?a ?l <= _ => destruct (py_max_spec a l) as [Hin _] end.
        destruct Hin as [<- | Hin]; [apply Hg|].
        apply in_map_iff in Hin. destruct Hin as [x [<- _]]. apply Hg.
  - apply bind_ok in H. destruct H as [fs [Hfs H]].
    destruct fs as [|f fs']; [discriminate|]. injection H as <-.
    unfold sim_inv; cbn [remaining now sched_finish].
    refine (conj _ (conj _ (conj H3 Hpos'))); [lra|].
    destruct (py_min_spec f fs') as [Hin _].
    apply H3. eapply lookup_all_values; eauto.
Qed.

Lemma sim_loop_inv T fuel team s s' :
  (1 <= team)%Z -> sim_inv T s -> sim_loop fuel team s = Ok s' -> sim_inv T s'.
Proof.
  revert s. induction fuel as [|f IH]; intros s Hteam Hs H; simpl in H; [discriminate|].
  assert (Hstep : forall o, sim_step team s = Ok o ->
            match o with Continue s' => sim_loop f team s' | Break s' => Ok s' end = Ok s' ->
            sim_inv T s').
  { intros o Ho Hk. pose proof (sim_step_inv T team s o Hteam Hs Ho) as Hs'.
    destruct o as [s1 | s1]; [eapply IH; eauto | injection Hk as <-; exact Hs']. }
  destruct (remaining s), (active s);
    try (injection H as <-; exact Hs);
    apply bind_ok in H; destruct H as [o [Ho H]]; exact (Hstep o Ho H).
Qed.

Lemma decorate_snd start ts dec : decorate start ts = Ok dec -> map snd dec = ts.
Proof.
  revert dec. induction ts as [|t r IH]; intros dec H; simpl in H.
  - injection H as <-. reflexivity.
  - apply bind_ok in H. destruct H as [s [_ H]].
    apply bind_ok in H. destruct H as [rest [Hr H]]. injection H as <-.
    simpl. f_equal. apply IH, Hr.
Qed.

Lemma sort_tasks_perm start ts l : sort_tasks start ts = Ok l -> Permutation l ts.
Proof.
  unfold sort_tasks. intros H. apply bind_ok in H. destruct H as [dec [Hd H]].
  injection H as <-. rewrite <- (decorate_snd _ _ _ Hd).
  apply Permutation_map, py_sorted_by_perm.
Qed.

Lemma schedule_bounded fuel p v :
  (1 <= team_size p)%Z -> (forall t, In t (tasks p) -> 0 < estimated_days t) ->
  simulate_resource_constrained_schedule fuel p = Ok v ->
  v <= py_sum (map estimated_days (tasks p)).
Proof.
  intros Hteam Hpos H. unfold simulate_resource_constrained_schedule in H.
  assert (Hnn : forall t, In t (tasks p) -> 0 <= estimated_days t)
    by (intros; apply Qlt_le_weak; auto).
  pose proof (forward_pass_bounded (tasks p) [] [] 0 (Qle_refl 0)) as Hfp.
  destruct (forward_pass (tasks p) [] []) as [start finish].
  destruct (task_count p <=? team_size p)%Z.
  - injection H as <-.
    assert (Hb : bounded_by (0 + py_sum (map estimated_days (tasks p))) finish).
    { apply Hfp; [intros x [] | exact Hnn]. }
    eapply Qle_trans; [apply max_values_bounded; [|exact Hb]|].
    + pose proof (days_sum_nonneg _ Hnn). lra.
    + lra.
  - apply bind_ok in H. destruct H as [sorted [Hs H]].
    apply bind_ok in H. destruct H as [s' [Hl H]]. injection H as <-.
    pose proof (sort_tasks_perm _ _ _ Hs) as Hperm.
    set (T := py_sum (map estimated_days sorted)).
    assert (Hinv : sim_inv T (mkSim sorted [] [] [] 0)).
    { unfold sim_inv; cbn [remaining now sched_finish]. fold T.
      refine (conj _ (conj _ (conj _ _))).
      - lra.
      - lra.
      - intros x [].
      - intros t Ht. apply Hpos. eapply Permutation_in; eauto. }
    destruct (sim_loop_inv T _ _ _ _ Hteam Hinv Hl) as [H0 [_ [Hsf Hrem]]].
    assert (HT : T == py_sum (map estimated_days (tasks p)))
      by (apply py_sum_perm, Permutation_map, Hperm).
    pose proof (days_sum_nonneg (remaining s') (fun t Ht => Qlt_le_weak _ _ (Hrem t Ht))).
    eapply Qle_trans; [apply max_values_bounded; [exact H0 | exact Hsf]|]. lra.
Qed.

Lemma find_task_some tid ts t : find_task tid ts = Some t -> task_id t = tid /\ In t ts.
Proof.
  induction ts as [|x r IH]; simpl; [discriminate|].
  destruct (String.eqb (task_id x) tid) eqn:E.
  - intros H; injection H as <-. apply String.eqb_eq in E. auto.
  - intros H. destruct (IH H). auto.
Qed.

Lemma find_predecessor_some ts es cur deps d :
  find_predecessor ts es cur deps = Ok (Some d) ->
  exists e dt e_cur, PyDict.get d es = Some e /\ find_task d ts = Some dt /\
    PyDict.get (task_id cur) es = Some e_cur /\ e + estimated_days dt == e_cur.
Proof.
  induction deps as [|x r IH]; simpl; [discriminate|]. intros H.
  apply bind_ok in H. destruct H as [e [He H]].
  apply bind_ok in H. destruct H as [dt [Hdt H]].
  apply bind_ok in H. destruct H as [ec [Hec H]].
  unfold PyDict.lookup in He, Hec.
  destruct (PyDict.get x es) eqn:Ex; [|discriminate]. injection He as ->.
  destruct (PyDict.get (task_id cur) es) eqn:Ec; [|discriminate]. injection Hec as ->.
  destruct (find_task x ts) eqn:Ed; [|discriminate]. injection Hdt as ->.
  destruct (Qeqb (e + estimated_days dt) ec) eqn:Eq.
  - injection H as <-. exists e, dt, ec. repeat split; auto. apply Qeq_bool_iff, Eq.
  - apply IH, H.
Qed.

(** The backtracking invariant: the collected tasks have distinct ids, come
    from the task list, and have earliest starts above the current one. *)
Lemma backtrack_distinct fuel ts es cur acc path :
  (forall t, In t ts -> 0 < estimated_days t) ->
  NoDup (map task_id acc) -> (forall t, In t acc -> In t ts) ->
  (forall t, In t acc -> exists c e et, cur = Some c /\ PyDict.get c es = Some e /\
       PyDict.get (task_id t) es = Some et /\ e < et) ->
  backtrack fuel ts es cur acc = Ok path ->
  NoDup (map task_id path) /\ (forall t, In t path -> In t ts).
Proof.
  intros Hpos. revert cur acc. induction fuel as [|f IH]; intros cur acc Hnd Hin Hlt H;
    simpl in H; [discriminate|].
  destruct (truthy cur) as [c|] eqn:Etr; [|injection H as <-; auto].
  assert (Hc : cur = Some c).
  { destruct cur as [s|]; simpl in Etr; [|discriminate].
    destruct (String.eqb s ""); [discriminate | congruence]. }
  apply bind_ok in H. destruct H as [ct [Hct H]].
  unfold task_or_attr_error in Hct. destruct (find_task c ts) eqn:Ef; [|discriminate].
  injection Hct as ->. destruct (find_task_some _ _ _ Ef) as [Hid Hints].
  assert (Hnd' : NoDup (map task_id (ct :: acc))).
  { simpl. constructor; auto. intros Hm. apply in_map_iff in Hm.
    destruct Hm as [t [Ht Hta]]. destruct (Hlt t Hta) as [c' [e [et [Hc' [He [Het Hl]]]]]].
    rewrite Hc in Hc'. injection Hc' as <-. rewrite Ht, Hid, He in Het.
    injection Het as Heq. rewrite Heq in Hl. exact (Qlt_irrefl _ Hl). }
  assert (Hin' : forall t, In t (ct :: acc) -> In t ts) by (intros t [<- | Ht]; auto).
  destruct (dependencies ct) as [|d0 ds] eqn:Edeps; [injection H as <-; auto|].
  apply bind_ok in H. destruct H as [nxt [Hn H]].
  destruct nxt as [d|]; [|destruct f; simpl in H; [discriminate | injection H as <-; auto]].
  change (find_predecessor ts es ct (d0 :: ds) = Ok (Some d)) in Hn.
  destruct (find_predecessor_some _ _ _ _ _ Hn) as [e [dt [ecur [Hd [Hdt [Hcur Heq]]]]]].
  apply (IH (Some d) (ct :: acc)); auto.
  assert (Hlt' : e < ecur).
  { destruct (find_task_some _ _ _ Hdt) as [_ Hdtin]. pose proof (Hpos dt Hdtin). lra. }
  intros t [<- | Ht].
  - exists d, e, ecur. auto.
  - destruct (Hlt t Ht) as [c' [e' [et [Hc' [He' [Het Hl]]]]]].
    rewrite Hc in Hc'. injection Hc' as <-. rewrite Hid, He' in Hcur. injection Hcur as <-.
    exists d, e, et. repeat split; auto. lra.
Qed.

Lemma days_le_sum t l :
  (forall x, In x l -> 0 <= estimated_days x) -> In t l ->
  estimated_days t <= py_sum (map estimated_days l).
Proof.
  induction l as [|x r IH]; intros Hnn Ht; [destruct Ht|].
  rewrite days_sum_cons. destruct Ht as [<- | Ht].
  - pose proof (days_sum_nonneg r (fun y Hy => Hnn y (or_intror Hy))). lra.
  - pose proof (Hnn x (or_introl eq_refl)). pose proof (IH (fun y Hy => Hnn y (or_intror Hy)) Ht). lra.
Qed.

Lemma days_sum_filter (f : Task -> bool) l :
  py_sum (map estimated_days l) ==
  py_sum (map estimated_days (filter f l)) + py_sum (map estimated_days (filter (fun x => negb (f x)) l)).
Proof.
  induction l as [|x r IH]; [unfold py_sum; simpl; lra|].
  cbn [filter]. destruct (f x); cbn [negb]; rewrite !days_sum_cons, IH; lra.
Qed.

(** A list of tasks with distinct ids drawn from [ts] lasts at most as long
    as [ts] in total. *)
Lemma distinct_sum_le l ts :
  (forall t, In t ts -> 0 <= estimated_days t) ->
  NoDup (map task_id l) -> (forall t, In t l -> In t ts) ->
  py_sum (map estimated_days l) <= py_sum (map estimated_days ts).
Proof.
  revert ts. induction l as [|x r IH]; intros ts Hnn Hnd Hin.
  - unfold py_sum at 1; simpl. apply days_sum_nonneg, Hnn.
  - simpl in Hnd. inversion Hnd as [|? ? Hx Hr]; subst.
    set (f := fun y => String.eqb (task_id y) (task_id x)).
    rewrite (days_sum_filter f ts), days_sum_cons.
    assert (H1 : estimated_days x <= py_sum (map estimated_days (filter f ts))).
    { apply days_le_sum.
      - intros y Hy. apply filter_In in Hy. apply Hnn, Hy.
      - apply filter_In. split; [apply Hin; simpl; auto | apply String.eqb_refl]. }
    assert (H2 : py_sum (map estimated_days r) <=
                 py_sum (map estimated_days (filter (fun y => negb (f y)) ts))).
    { apply IH; auto.
      - intros y Hy. apply filter_In in Hy. apply Hnn, Hy.
      - intros y Hy. apply filter_In. split; [apply Hin; simpl; auto|].
        unfold f. destruct (String.eqb (task_id y) (task_id x)) eqn:E; auto.
        apply String.eqb_eq in E. exfalso. apply Hx. rewrite <- E. apply in_map, Hy. }
    lra.
Qed.

Lemma critical_path_bounded fuel p cp :
  (forall t, In t (tasks p) -> 0 < estimated_days t) ->
  get_critical_path fuel p = Ok cp ->
  py_sum (map estimated_days cp) <= py_sum (map estimated_days (tasks p)).
Proof.
  intros Hpos H. unfold get_critical_path in H.
  apply bind_ok in H. destruct H as [q [_ H]].
  apply bind_ok in H. destruct H as [es [_ H]].
  apply bind_ok in H. destruct H as [end_id [_ H]].
  destruct (backtrack_distinct _ _ _ _ [] _ Hpos (NoDup_nil _) (fun t Ht => match Ht with end)
              (fun t Ht => match Ht with end) H) as [Hnd Hin].
  apply distinct_sum_le; auto. intros; apply Qlt_le_weak; auto.
Qed.

Lemma Project_init_ok nm ts team risk desc p :
  Project_init nm ts team risk desc = Ok p ->
  p = mkProject nm ts team (py_lower risk) desc /\ (1 <= team)%Z.
Proof.
  unfold Project_init. destruct (team <=? 0)%Z eqn:Et; [discriminate|].
  apply Z.leb_gt in Et. destruct ts as [|t r]; [discriminate|].
  destruct (negb _); [discriminate|]. intros H; injection H as <-. split; auto; lia.
Qed.

Lemma risk_multiplier_pos r : 0 < get_risk_multiplier r.
Proof.
  unfold get_risk_multiplier.
  repeat match goal with |- context [if ?b then _ else _] => destruct b end;
    vm_compute; reflexivity.
Qed.

Lemma py_max2_le a b c : a <= c -> b <= c -> py_max2 a b <= c.
Proof. unfold py_max2. destruct (Qltb a b); auto. Qed.

(** C5 (corrected): when every task has a positive duration, as the input
    front ends ensure, a parallel estimate that is returned never exceeds the
    sequential estimate: both parts of the parallel maximum, the
    resource-constrained schedule and the critical path, last at most the sum
    of all durations. *)
Theorem sequential_bounds_parallel nm ts team risk desc p fuel v
  (Hp : Project_init nm ts team risk desc = Ok p)
  (Hpos : forall t, In t ts -> 0 < estimated_days t)
  (Hv : calculate_parallel_timeline fuel p = Ok v) :
  v <= calculate_sequential_timeline p.
Proof.
  destruct (Project_init_ok _ _ _ _ _ _ Hp) as [-> Hteam].
  unfold calculate_parallel_timeline, calculate_sequential_timeline, total_estimated_days in *.
  cbn [tasks team_size risk_level] in *.
  pose proof (risk_multiplier_pos (py_lower risk)) as Hm.
  set (m := get_risk_multiplier (py_lower risk)) in *.
  destruct ts as [|t0 r].
  - injection Hv as <-. unfold py_sum; simpl. lra.
  - apply bind_ok in Hv. destruct Hv as [cp [Hcp Hv]].
    apply bind_ok in Hv. destruct Hv as [tl [Htl Hv]]. injection Hv as <-.
    pose proof (critical_path_bounded _ (mkProject nm (t0 :: r) team (py_lower risk) desc)
                  _ Hpos Hcp) as Hc.
    pose proof (schedule_bounded _ (mkProject nm (t0 :: r) team (py_lower risk) desc)
                  _ Hteam Hpos Htl) as Hs.
    cbn [tasks] in Hc, Hs.
    apply py_max2_le; apply Qmult_le_compat_r; auto; apply Qlt_le_weak, Hm.
Qed.

Lemma sequential_bounds_parallel_witness :
  Project_init "P" [chain_A; chain_B; chain_C] 2 "low" "" =
    Ok (mkProject "P" [chain_A; chain_B; chain_C] 2 "low" "") /\
  (forall t, In t [chain_A; chain_B; chain_C] -> 0 < estimated_days t) /\
  exists v, calculate_parallel_timeline 20 (mkProject "P" [chain_A; chain_B; chain_C] 2 "low" "") = Ok v /\
    v <= calculate_sequential_timeline (mkProject "P" [chain_A; chain_B; chain_C] 2 "low" "").
Proof.
  assert (Hp : Project_init "P" [chain_A; chain_B; chain_C] 2 "low" "" =
                 Ok (mkProject "P" [chain_A; chain_B; chain_C] 2 "low" "")) by reflexivity.
  assert (Hpos : forall t, In t [chain_A; chain_B; chain_C] -> 0 < estimated_days t).
  { intros t [<- | [<- | [<- | []]]]; vm_compute; reflexivity. }
  split; [exact Hp|]. split; [exact Hpos|].
  let v := eval vm_compute in
    (match calculate_parallel_timeline 20 (mkProject "P" [chain_A; chain_B; chain_C] 2 "low" "")
     with Ok v => v | _ => 0 end) in
  exists v.
  split; [vm_compute; reflexivity|].
  apply (sequential_bounds_parallel "P" [chain_A; chain_B; chain_C] 2 "low" "" _ 20 _ Hp Hpos).
  vm_compute; reflexivity.
Defined.

(** C5 (counterexample): a Task with a negative duration is accepted, and then
    the parallel estimate (5.5) exceeds the sequential one (2.2). *)
Lemma negative_duration_parallel_exceeds :
  let ts := [Task_init "A" 5 1 [] None; Task_init "B" (-3) 1 [] None] in
  Project_init "P" ts 2 "low" "" = Ok (mkProject "P" ts 2 "low" "") /\
  exists v, calculate_parallel_timeline 10 (mkProject "P" ts 2 "low" "") = Ok v /\
    v == 11 # 2 /\ calculate_sequential_timeline (mkProject "P" ts 2 "low" "") == 11 # 5 /\
    calculate_sequential_timeline (mkProject "P" ts 2 "low" "") < v.
Proof.
  intros ts. split; [reflexivity|].
  let v := eval vm_compute in
    (match calculate_parallel_timeline 10 (mkProject "P" ts 2 "low" "") with Ok v => v | _ => 0 end) in
  exists v.
  split; [vm_compute; reflexivity|].
  split; [vm_compute; reflexivity|]. split; vm_compute; reflexivity.
Qed.

(** ** Cycle detection *)

Lemma set_add_notin x s : ~ In x s -> set_add x s = x :: s.
Proof.
  intros H. unfold set_add. destruct (str_mem x s) eqn:E; auto.
  apply str_mem_In in E. contradiction.
Qed.

Lemma filter_keep_notin x R :
  ~ In x R -> filter (fun y => negb (String.eqb x y)) R = R.
Proof.
  induction R as [|y r IH]; intros H; simpl; auto.
  destruct (String.eqb x y) eqn:E.
  - apply String.eqb_eq in E. subst. exfalso. apply H. simpl; auto.
  - simpl. f_equal. apply IH. intros Hr. apply H. simpl; auto.
Qed.

Lemma set_remove_top x R : ~ In x R -> set_remove x (x :: R) = Ok R.
Proof.
  intros H. unfold set_remove. simpl. rewrite String.eqb_refl. simpl.
  f_equal. apply filter_keep_notin, H.
Qed.

Lemma unvisited_count_mono U V V' :
  incl V V' -> (unvisited_count U V' <= unvisited_count U V)%nat.
Proof.
  intros Hi. unfold unvisited_count. induction U as [|a r IH]; simpl; auto.
  destruct (str_mem a V) eqn:E1, (str_mem a V') eqn:E2; simpl; try lia.
  apply str_mem_In, Hi, str_mem_In in E1. congruence.
Qed.

Lemma unvisited_count_strict U V V' x :
  incl V V' -> In x U -> ~ In x V -> In x V' ->
  (unvisited_count U V' < unvisited_count U V)%nat.
Proof.
  intros Hi HxU HxV HxV'. unfold unvisited_count. induction U as [|a r IH]; [destruct HxU|].
  pose proof (unvisited_count_mono r V V' Hi) as Hm. unfold unvisited_count in Hm.
  simpl. destruct HxU as [-> | HxU].
  - replace (str_mem x V) with false
      by (symmetry; apply Bool.not_true_iff_false; rewrite str_mem_In; exact HxV).
    replace (str_mem x V') with true by (symmetry; apply str_mem_In; exact HxV').
    simpl. lia.
  - specialize (IH HxU).
    destruct (str_mem a V) eqn:E1, (str_mem a V') eqn:E2; simpl; try lia.
    apply str_mem_In, Hi, str_mem_In in E1. congruence.
Qed.

Lemma unvisited_count_le U V : (unvisited_count U V <= List.length U)%nat.
Proof. unfold unvisited_count. apply filter_length_le. Qed.

Lemma crt_edge_cycle {A} (R : A -> A -> Prop) x y :
  clos_refl_trans A R x y -> R y x -> clos_trans A R x x.
Proof.
  intros H Hyx. apply clos_rt_t with y; [exact H | apply t_step, Hyx].
Qed.

Lemma ct_first_step {A} (R : A -> A -> Prop) x z :
  clos_trans A R x z -> exists y, R x y /\ clos_refl_trans A R y z.
Proof.
  intros H. apply clos_trans_t1n in H. destruct H as [y Hy | y z' Hy Hrest].
  - exists y. split; [exact Hy | apply rt_refl].
  - exists y. split; [exact Hy|]. apply clos_t1n_trans in Hrest.
    clear Hy. induction Hrest as [a b Hab | a b c _ IH1 _ IH2].
    + apply rt_step, Hab.
    + eapply rt_trans; eauto.
Qed.

Lemma black_reach g V R x y :
  black_closed g V R -> In x V -> ~ In x R ->
  clos_refl_trans string (graph_edge g) x y -> In y V /\ ~ In y R.
Proof.
  intros Hc Hx Hxr H. apply clos_rt_rt1n in H.
  induction H as [| a b c Hab _ IH]; auto.
  destruct (Hc a Hx Hxr b Hab). apply IH; auto.
Qed.

Section HasCycle.

Variable g : PyDict.t (list string).
Variable U : list string.
Hypothesis HU : forall x y, graph_edge g x y -> In y U.

(** A nested call on an unvisited node of [U] with enough fuel returns; a
    [True] answer comes with a cycle, and a [False] answer leaves the
    recursion stack as it was and the new finished nodes closed and acyclic. *)
Lemma has_cycle_correct fuel : forall node V R,
  ~ In node V -> In node U -> incl R V ->
  black_closed g V R -> black_acyclic g V R ->
  (forall x, In x R -> clos_refl_trans string (graph_edge g) x node) ->
  (unvisited_count U V < fuel)%nat ->
  exists b V' R', has_cycle g fuel node V R = Ok (b, V', R') /\
    (b = true -> exists x, clos_trans string (graph_edge g) x x) /\
    (b = false -> R' = R /\ incl V V' /\ In node V' /\
                  black_closed g V' R /\ black_acyclic g V' R).
Proof.
  induction fuel as [|f IHf]; intros node V R HnV HnU HRV Hc Ha Hpath Hfuel; [lia|].
  assert (HnR : ~ In node R) by (intros H; apply HnV, HRV, H).
  simpl. rewrite (set_add_notin _ _ HnV), (set_add_notin _ _ HnR).
  assert (Hcnt : (unvisited_count U (node :: V) < f)%nat).
  { pose proof (unvisited_count_strict U V (node :: V) node) as Hs.
    assert (incl V (node :: V)) by (intros z Hz; simpl; auto).
    specialize (Hs ltac:(assumption) HnU HnV ltac:(simpl; auto)). lia. }
  assert (Loop : forall ns W,
    incl ns (graph_get g node) -> incl (node :: V) W -> incl (node :: R) W ->
    black_closed g W (node :: R) -> black_acyclic g W (node :: R) ->
    exists b W' R', cycle_loop (has_cycle g f) node ns W (node :: R) = Ok (b, W', R') /\
      (b = true -> exists x, clos_trans string (graph_edge g) x x) /\
      (b = false -> R' = R /\ incl W W' /\ black_closed g W' (node :: R) /\
                    black_acyclic g W' (node :: R) /\
                    forall y, In y ns -> In y W' /\ ~ In y (node :: R))).
  { induction ns as [|n ns' IHns]; intros W Hns HVW HRW HcW HaW.
    - exists false, W, R. simpl. rewrite (set_remove_top _ _ HnR).
      split; [reflexivity|]. split; [discriminate|]. intros _.
      exact (conj eq_refl (conj (fun z Hz => Hz) (conj HcW (conj HaW (fun y (Hy : In y []) => False_ind _ Hy))))).
    - assert (Hedge : graph_edge g node n) by (apply Hns; simpl; auto).
      assert (Hns' : incl ns' (graph_get g node)) by (intros z Hz; apply Hns; simpl; auto).
      cbn [cycle_loop]. destruct (str_mem n W) eqn:En; cbn [negb].
      + destruct (str_mem n (node :: R)) eqn:Er.
        * exists true, W, (node :: R). split; [reflexivity|]. split; [|discriminate].
          intros _. exists n. apply str_mem_In in Er. apply (crt_edge_cycle _ n node); auto.
          destruct Er as [<- | Er]; [apply rt_refl | apply Hpath, Er].
        * destruct (IHns W Hns' HVW HRW HcW HaW) as [b [W' [R' [Hl [Ht Hf]]]]].
          exists b, W', R'. split; [exact Hl|]. split; [exact Ht|].
          intros Hb. destruct (Hf Hb) as [H1 [H2 [H3 [H4 H5]]]].
          refine (conj H1 (conj H2 (conj H3 (conj H4 _)))).
          intros y [<- | Hy]; [|apply H5, Hy].
          split; [apply H2, str_mem_In, En|].
          intros Hin. apply str_mem_In in Hin. congruence.
      + assert (HnW : ~ In n W) by (intros H; apply str_mem_In in H; congruence).
        assert (Hp' : forall x, In x (node :: R) -> clos_refl_trans string (graph_edge g) x n).
        { intros x [<- | Hx]; [apply rt_step, Hedge|].
          apply rt_trans with node; [apply Hpath, Hx | apply rt_step, Hedge]. }
        assert (Hf' : (unvisited_count U W < f)%nat).
        { eapply Nat.le_lt_trans; [apply unvisited_count_mono, HVW | exact Hcnt]. }
        destruct (IHf n W (node :: R) HnW (HU _ _ Hedge) HRW HcW HaW Hp' Hf')
          as [b1 [W1 [R1 [Hhc [Ht1 Hf1]]]]].
        rewrite Hhc. simpl. destruct b1.
        * exists true, W1, R1. split; [reflexivity|]. split; [exact Ht1 | discriminate].
        * destruct (Hf1 eq_refl) as [-> [HW1 [HnW1 [Hc1 Ha1]]]].
          destruct (IHns W1 Hns' (fun z Hz => HW1 z (HVW z Hz)) (fun z Hz => HW1 z (HRW z Hz)) Hc1 Ha1)
            as [b [W' [R' [Hl [Ht Hf]]]]].
          exists b, W', R'. split; [exact Hl|]. split; [exact Ht|].
          intros Hb. destruct (Hf Hb) as [H1 [H2 [H3 [H4 H5]]]].
          refine (conj H1 (conj (fun z Hz => H2 z (HW1 z Hz)) (conj H3 (conj H4 _)))).
          intros y [<- | Hy]; [|apply H5, Hy].
          split; [apply H2, HnW1|].
          intros Hin. apply HnW, HRW, Hin. }
  destruct (Loop (graph_get g node) (node :: V)) as [b [W' [R' [Hl [Ht Hf]]]]].
  - intros z Hz; exact Hz.
  - intros z Hz; exact Hz.
  - intros z [<- | Hz]; simpl; auto.
  - intros x [<- | Hx] Hxr; [exfalso; apply Hxr; simpl; auto|].
    intros y Hy. assert (Hxr' : ~ In x R) by (intros H; apply Hxr; simpl; auto).
    destruct (Hc x Hx Hxr' y Hy) as [Hy1 Hy2]. split; [simpl; auto|].
    intros [<- | Hy3]; [apply HnV, Hy1 | apply Hy2, Hy3].
  - intros x [<- | Hx] Hxr; [exfalso; apply Hxr; simpl; auto|].
    apply Ha; auto. intros H; apply Hxr; simpl; auto.
  - exists b, W', R'. split; [exact Hl|]. split; [exact Ht|].
    intros Hb. destruct (Hf Hb) as [H1 [H2 [H3 [H4 H5]]]].
    refine (conj H1 (conj (fun z Hz => H2 z (or_intror Hz)) (conj (H2 node (or_introl eq_refl)) (conj _ _)))).
    + intros x Hx Hxr y Hy. destruct (String.eqb_spec x node) as [-> | Hne].
      * destruct (H5 y Hy) as [Hy1 Hy2]. split; [exact Hy1|].
        intros Hin; apply Hy2; simpl; auto.
      * assert (Hxr' : ~ In x (node :: R)) by (intros [H | H]; [congruence | contradiction]).
        destruct (H3 x Hx Hxr' y Hy) as [Hy1 Hy2]. split; [exact Hy1|].
        intros Hin; apply Hy2; simpl; auto.
    + intros x Hx Hxr Hcyc. destruct (String.eqb_spec x node) as [-> | Hne].
      * destruct (ct_first_step _ _ _ Hcyc) as [y [Hy Hrt]].
        destruct (H5 y Hy) as [Hy1 Hy2].
        destruct (black_reach g W' (node :: R) y node H3 Hy1 Hy2 Hrt) as [_ Hn].
        apply Hn; simpl; auto.
      * assert (Hxr' : ~ In x (node :: R)) by (intros [H | H]; [congruence | contradiction]).
        exact (H4 x Hx Hxr' Hcyc).
Qed.

Lemma dfs_roots_correct fuel ts : forall V,
  (forall t, In t ts -> In (task_id t) U) ->
  black_closed g V [] -> black_acyclic g V [] ->
  (unvisited_count U V < fuel)%nat ->
  exists b, dfs_roots g fuel ts V [] = Ok b /\
    (b = true -> exists x, clos_trans string (graph_edge g) x x) /\
    (b = false -> exists V', incl V V' /\ (forall t, In t ts -> In (task_id t) V') /\
                             black_acyclic g V' []).
Proof.
  induction ts as [|t r IH]; intros V Hts Hc Ha Hfuel; simpl.
  - exists false. split; [reflexivity|]. split; [discriminate|].
    intros _. exists V. split; [intros z Hz; exact Hz|]. split; [intros _ []| exact Ha].
  - destruct (str_mem (task_id t) V) eqn:Et; simpl.
    + destruct (IH V) as [b [Hb [Ht Hf]]]; auto.
      { intros; apply Hts; simpl; auto. }
      exists b. split; [exact Hb|]. split; [exact Ht|].
      intros E. destruct (Hf E) as [V' [H1 [H2 H3]]]. exists V'. split; [exact H1|].
      split; [|exact H3]. intros t' [<- | Ht']; [apply H1, str_mem_In, Et | apply H2, Ht'].
    + assert (HtV : ~ In (task_id t) V) by (intros H; apply str_mem_In in H; congruence).
      destruct (has_cycle_correct fuel (task_id t) V []) as [b1 [V1 [R1 [Hhc [Ht1 Hf1]]]]];
        auto; [apply Hts; simpl; auto | intros z [] | intros x []|].
      rewrite Hhc. simpl. destruct b1.
      * exists true. split; [reflexivity|]. split; [exact Ht1 | discriminate].
      * destruct (Hf1 eq_refl) as [-> [HV1 [HtV1 [Hc1 Ha1]]]].
        destruct (IH V1) as [b [Hb [Ht Hf]]]; auto.
        { intros; apply Hts; simpl; auto. }
        { eapply Nat.le_lt_trans; [apply unvisited_count_mono, HV1 | exact Hfuel]. }
        exists b. split; [exact Hb|]. split; [exact Ht|].
        intros E. destruct (Hf E) as [V' [H1 [H2 H3]]]. exists V'.
        split; [intros z Hz; apply H1, HV1, Hz|]. split; [|exact H3].
        intros t' [<- | Ht']; [apply H1, HtV1 | apply H2, Ht'].
Qed.

End HasCycle.

Lemma comprehension_get_some {A V} (f : A -> string) (h : A -> V) xs d k v :
  PyDict.get k (fold_left (fun d x => PyDict.set (f x) (h x) d) xs d) = Some v ->
  (exists a, In a xs /\ f a = k /\ h a = v) \/ PyDict.get k d = Some v.
Proof.
  revert d. induction xs as [|a r IH]; intros d H; simpl in H; auto.
  destruct (IH _ H) as [[a' [Ha [Hf Hh]]] | Hd].
  - left. exists a'. simpl; auto.
  - destruct (String.eqb_spec k (f a)) as [-> | Hne].
    + rewrite get_set_eq in Hd. injection Hd as <-. left. exists a. simpl; auto.
    + rewrite get_set_neq in Hd by exact Hne. auto.
Qed.

Lemma comprehension_get_notin {A V} (f : A -> string) (h : A -> V) xs d k :
  ~ In k (map f xs) ->
  PyDict.get k (fold_left (fun d x => PyDict.set (f x) (h x) d) xs d) = PyDict.get k d.
Proof.
  revert d. induction xs as [|a r IH]; intros d Hk; simpl; auto.
  rewrite IH by (intros H; apply Hk; simpl; auto).
  apply get_set_neq. intros ->. apply Hk. simpl; auto.
Qed.

Lemma comprehension_get_nodup {A V} (f : A -> string) (h : A -> V) xs d a :
  NoDup (map f xs) -> In a xs ->
  PyDict.get (f a) (fold_left (fun d x => PyDict.set (f x) (h x) d) xs d) = Some (h a).
Proof.
  revert d. induction xs as [|a' r IH]; intros d Hnd Ha; [destruct Ha|].
  simpl in Hnd. inversion Hnd as [|? ? Hnin Hnd']; subst. simpl.
  destruct Ha as [-> | Ha].
  - rewrite comprehension_get_notin by exact Hnin. apply get_set_eq.
  - apply IH; auto.
Qed.

Lemma dep_graph_edge_task p x y :
  graph_edge (dep_graph p) x y ->
  exists t, In t (tasks p) /\ task_id t = x /\ In y (dependencies t).
Proof.
  unfold graph_edge, graph_get, dep_graph, PyDict.comprehension.
  destruct (PyDict.get x _) as [l|] eqn:E; [|intros []].
  intros Hy. destruct (comprehension_get_some _ _ _ _ _ _ E) as [[t [Ht [Hid Hd]]] | Hn];
    [|discriminate]. exists t. subst. auto.
Qed.

Lemma dep_graph_edge_iff p x y :
  unique_task_ids p -> (graph_edge (dep_graph p) x y <-> depends_on p x y).
Proof.
  intros Hu. split.
  - intros H. destruct (dep_graph_edge_task p x y H) as [t [Ht [Hid Hy]]].
    exists t. auto.
  - intros [t [Ht [<- Hy]]]. unfold graph_edge, graph_get, dep_graph, PyDict.comprehension.
    rewrite (comprehension_get_nodup task_id dependencies _ _ t Hu Ht). exact Hy.
Qed.

Lemma clos_trans_iff {A} (R1 R2 : A -> A -> Prop) :
  (forall x y, R1 x y <-> R2 x y) -> forall x y, clos_trans A R1 x y <-> clos_trans A R2 x y.
Proof.
  intros H x y. split; intros Hc; induction Hc as [a b Hab | a b c _ IH1 _ IH2].
  - apply t_step, H, Hab.
  - eapply t_trans; eauto.
  - apply t_step, H, Hab.
  - eapply t_trans; eauto.
Qed.

(** [_has_circular_dependency] answers, and answers [True] exactly when the
    adjacency dict has a cycle. *)
Lemma has_circular_dependency_iff p :
  exists b, has_circular_dependency p = Ok b /\
    (b = true <-> exists x, clos_trans string (graph_edge (dep_graph p)) x x).
Proof.
  assert (HU : forall x y, graph_edge (dep_graph p) x y -> In y (universe p)).
  { intros x y H. destruct (dep_graph_edge_task p x y H) as [t [Ht [_ Hy]]].
    unfold universe. apply in_or_app. right. apply in_concat.
    exists (dependencies t). split; [apply in_map, Ht | exact Hy]. }
  destruct (dfs_roots_correct (dep_graph p) (universe p) HU (dfs_fuel p) (tasks p) [])
    as [b [Hb [Ht Hf]]].
  - intros t Ht. unfold universe. apply in_or_app. left. apply in_map, Ht.
  - intros x [].
  - intros x [].
  - unfold dfs_fuel. pose proof (unvisited_count_le (universe p) []). lia.
  - exists b. split; [exact Hb|]. split; [exact Ht|].
    intros [x Hx]. destruct b; [reflexivity|]. exfalso.
    destruct (Hf eq_refl) as [V' [_ [HV' Ha]]].
    destruct (ct_first_step _ _ _ Hx) as [y [Hxy _]].
    destruct (dep_graph_edge_task p x y Hxy) as [t [Ht' [Hid _]]].
    apply (Ha x); [rewrite <- Hid; apply HV', Ht' | intros [] | exact Hx].
Qed.

Lemma missing_dep_errors_In p msg :
  In msg (missing_dep_errors p) <->
  exists t d, In t (tasks p) /\ In d (dependencies t) /\ ~ In d (map task_id (tasks p)) /\
    msg = missing_dep_message t d.
Proof.
  unfold missing_dep_errors. rewrite in_concat. split.
  - intros [l [Hl Hm]]. apply in_map_iff in Hl. destruct Hl as [t [<- Ht]].
    apply in_map_iff in Hm. destruct Hm as [d [<- Hd]]. apply filter_In in Hd.
    destruct Hd as [Hd Hn]. exists t, d. repeat split; auto.
    intros Hin. apply str_mem_In in Hin. rewrite Hin in Hn. discriminate.
  - intros [t [d [Ht [Hd [Hn ->]]]]].
    exists (map (missing_dep_message t)
             (filter (fun d => negb (str_mem d (map task_id (tasks p)))) (dependencies t))).
    split; [apply in_map_iff; exists t; auto|].
    apply in_map, filter_In. split; [exact Hd|].
    destruct (str_mem d (map task_id (tasks p))) eqn:E; [|reflexivity].
    apply str_mem_In in E. contradiction.
Qed.

Lemma missing_dep_errors_length p :
  List.length (missing_dep_errors p) =
  List.length (List.concat (map (fun t => filter (fun d => negb (str_mem d (map task_id (tasks p))))
                                         (dependencies t)) (tasks p))).
Proof.
  unfold missing_dep_errors. generalize (map task_id (tasks p)) as ids. intros ids.
  induction (tasks p) as [|t r IH]; simpl; auto.
  rewrite !length_app, length_map, IH. reflexivity.
Qed.

Lemma circular_not_missing p : ~ In circular_message (missing_dep_errors p).
Proof.
  intros H. apply missing_dep_errors_In in H. destruct H as [t [d [_ [_ [_ H]]]]].
  unfold circular_message, missing_dep_message in H. simpl in H. discriminate.
Qed.

(** C4 (corrected): when the task ids are distinct, [validate_dependencies]
    returns the missing-reference errors, one per dependency id that names no
    task and each naming the task and the id, followed by the single generic
    circular-dependency error exactly when the task dependency relation has a
    cycle; in particular it returns the empty list for an acyclic project
    whose dependency ids all resolve. The function is pure, so it leaves the
    project unchanged. *)
Theorem validate_dependencies_spec p (Hu : unique_task_ids p) :
  (exists c : bool,
     validate_dependencies p =
       Ok (missing_dep_errors p ++ (if c then [circular_message] else []))%list /\
     (c = true <-> has_dependency_cycle p)) /\
  (forall msg, In msg (missing_dep_errors p) <->
     exists t d, In t (tasks p) /\ In d (dependencies t) /\
       ~ In d (map task_id (tasks p)) /\ msg = missing_dep_message t d) /\
  List.length (missing_dep_errors p) =
    List.length (List.concat (map (fun t => filter (fun d => negb (str_mem d (map task_id (tasks p))))
                                           (dependencies t)) (tasks p))) /\
  ~ In circular_message (missing_dep_errors p) /\
  ((forall t d, In t (tasks p) -> In d (dependencies t) -> In d (map task_id (tasks p))) ->
   ~ has_dependency_cycle p -> validate_dependencies p = Ok []).
Proof.
  destruct (has_circular_dependency_iff p) as [b [Hb Hiff]].
  assert (Hcyc : b = true <-> has_dependency_cycle p).
  { rewrite Hiff. unfold has_dependency_cycle.
    split; intros [x Hx]; exists x; revert Hx; apply clos_trans_iff; intros a c.
    all: first [apply (dep_graph_edge_iff p a c Hu) | symmetry; apply (dep_graph_edge_iff p a c Hu)]. }
  assert (Hv : validate_dependencies p =
                 Ok (missing_dep_errors p ++ (if b then [circular_message] else []))%list).
  { unfold validate_dependencies. rewrite Hb. reflexivity. }
  split; [exists b; auto|].
  split; [intros; apply missing_dep_errors_In|].
  split; [apply missing_dep_errors_length|].
  split; [apply circular_not_missing|].
  intros Hall Hnc. rewrite Hv.
  destruct b; [exfalso; apply Hnc, Hcyc; reflexivity|].
  destruct (missing_dep_errors p) as [|m ms] eqn:E; [reflexivity|].
  exfalso. assert (Hm : In m (missing_dep_errors p)) by (rewrite E; simpl; auto).
  apply missing_dep_errors_In in Hm. destruct Hm as [t [d [Ht [Hd [Hn _]]]]].
  apply Hn, (Hall t d Ht Hd).
Qed.

Lemma validate_dependencies_spec_witness :
  unique_task_ids (mkProject "P" [chain_A; chain_B; chain_C] 2 "low" "") /\
  let p := mkProject "P" [chain_A; chain_B; chain_C] 2 "low" "" in
  (exists c : bool,
     validate_dependencies p =
       Ok (missing_dep_errors p ++ (if c then [circular_message] else []))%list /\
     (c = true <-> has_dependency_cycle p)) /\
  (forall msg, In msg (missing_dep_errors p) <->
     exists t d, In t (tasks p) /\ In d (dependencies t) /\
       ~ In d (map task_id (tasks p)) /\ msg = missing_dep_message t d) /\
  List.length (missing_dep_errors p) =
    List.length (List.concat (map (fun t => filter (fun d => negb (str_mem d (map task_id (tasks p))))
                                           (dependencies t)) (tasks p))) /\
  ~ In circular_message (missing_dep_errors p) /\
  ((forall t d, In t (tasks p) -> In d (dependencies t) -> In d (map task_id (tasks p))) ->
   ~ has_dependency_cycle p -> validate_dependencies p = Ok []).
Proof.
  assert (Hu : unique_task_ids (mkProject "P" [chain_A; chain_B; chain_C] 2 "low" "")).
  { unfold unique_task_ids. vm_compute.
    repeat apply NoDup_cons; try apply NoDup_nil; simpl; intuition discriminate. }
  split; [exact Hu|].
  exact (validate_dependencies_spec _ Hu).
Defined.

(** C4 (counterexample): with two tasks sharing the id ['a'] the adjacency
    dict keeps only the last one, so the cycle a -> b -> a through the first
    task is not reported and no error is returned. *)
Lemma duplicate_id_cycle_missed :
  let ts := [Task_init "A" 5 1 ["b"] None; Task_init "B" 5 1 ["a"] None;
             Task_init "a" 1 1 [] None] in
  Project_init "P" ts 1 "low" "" = Ok (mkProject "P" ts 1 "low" "") /\
  has_dependency_cycle (mkProject "P" ts 1 "low" "") /\
  validate_dependencies (mkProject "P" ts 1 "low" "") = Ok [].
Proof.
  intros ts. split; [reflexivity|]. split; [|vm_compute; reflexivity].
  exists "a". apply t_trans with "b".
  - apply t_step. exists (Task_init "A" 5 1 ["b"] None). simpl. auto.
  - apply t_step. exists (Task_init "B" 5 1 ["a"] None). simpl. auto.
Qed.

(** ** Further properties of the code *)

Lemma lower_ascii_idem c : lower_ascii (lower_ascii c) = lower_ascii c.
Proof.
  destruct c as [b0 b1 b2 b3 b4 b5 b6 b7].
  destruct b0, b1, b2, b3, b4, b5, b6, b7; reflexivity.
Qed.

Lemma py_lower_idem s : py_lower (py_lower s) = py_lower s.
Proof.
  unfold py_lower. induction s as [|c r IH]; simpl; auto.
  rewrite lower_ascii_idem, IH. reflexivity.
Qed.

(** X1: [get_task_by_id] returns a task of the project carrying the id asked
    for, returns [None] exactly when no task has that id, and with distinct
    ids finds every task by its own id. *)
Theorem get_task_by_id_spec p tid :
  (forall t, get_task_by_id p tid = Some t -> In t (tasks p) /\ task_id t = tid) /\
  (get_task_by_id p tid = None <-> ~ In tid (map task_id (tasks p))) /\
  (unique_task_ids p -> forall t, In t (tasks p) -> get_task_by_id p (task_id t) = Some t).
Proof.
  unfold get_task_by_id, unique_task_ids. split; [|split].
  - intros t H. destruct (find_task_some _ _ _ H). auto.
  - induction (tasks p) as [|x r IH]; simpl; [tauto|].
    destruct (String.eqb_spec (task_id x) tid) as [E | E].
    + split; [discriminate | intros H; exfalso; apply H; auto].
    + rewrite IH. split; intros H; [intros [H' | H']; [congruence | tauto] | tauto].
  - induction (tasks p) as [|x r IH]; intros Hnd t Ht; [destruct Ht|].
    simpl in Hnd. inversion Hnd as [|? ? Hnin Hnd']; subst. simpl.
    destruct Ht as [<- | Ht]; [rewrite String.eqb_refl; reflexivity|].
    destruct (String.eqb_spec (task_id x) (task_id t)) as [E | E].
    + exfalso. apply Hnin. rewrite E. apply in_map, Ht.
    + apply IH; auto.
Qed.

(** X2: [get_task_by_name] compares names case-insensitively: a task it
    returns is one of the project whose lowercased name equals the lowercased
    query, it returns [None] exactly when no task's name matches that way,
    and lowercasing the query does not change the answer. *)
Theorem get_task_by_name_spec p nm :
  (forall t, get_task_by_name p nm = Some t ->
     In t (tasks p) /\ py_lower (name t) = py_lower nm) /\
  (get_task_by_name p nm = None <->
     forall t, In t (tasks p) -> py_lower (name t) <> py_lower nm) /\
  get_task_by_name p (py_lower nm) = get_task_by_name p nm.
Proof.
  unfold get_task_by_name. induction (tasks p) as [|x r IH]; simpl.
  - split; [discriminate|]. split; [tauto | reflexivity].
  - destruct IH as [IH1 [IH2 IH3]].
    rewrite py_lower_idem.
    destruct (String.eqb_spec (py_lower (name x)) (py_lower nm)) as [E | E].
    + split; [intros t H; injection H as <-; auto|].
      split; [split; [discriminate | intros H; exfalso; apply (H x); auto] | reflexivity].
    + split; [intros t H; destruct (IH1 t H); auto|].
      split; [|exact IH3].
      rewrite IH2. split; intros H t Ht; [destruct Ht as [<- | Ht]; auto | apply H; auto].
Qed.

Lemma initial_queue_independent ts_all ts indeg :
  (forall t, In t ts -> PyDict.get (task_id t) indeg =
                        Some (Z.of_nat (List.length (dependencies t)))) ->
  initial_queue ts_all ts indeg =
    Ok (map task_id (filter (fun t => negb (has_dependencies t)) ts)).
Proof.
  induction ts as [|t r IH]; intros H; simpl; auto.
  unfold PyDict.lookup. rewrite (H t (or_introl eq_refl)). simpl.
  rewrite IH by (intros; apply H; simpl; auto). simpl.
  unfold has_dependencies. destruct (dependencies t) as [|d ds]; simpl; auto.
Qed.

(** X3: with distinct task ids, the queue Kahn's algorithm in
    [get_critical_path] starts from is the list of ids of
    [get_independent_tasks], in task order, and those are exactly the tasks
    declaring no dependency. *)
Theorem independent_tasks_start_kahn p (Hu : unique_task_ids p) :
  initial_queue (tasks p) (tasks p)
    (PyDict.comprehension task_id (fun t => Z.of_nat (List.length (dependencies t))) (tasks p)) =
    Ok (map task_id (get_independent_tasks p)) /\
  (forall t, In t (get_independent_tasks p) <-> In t (tasks p) /\ dependencies t = []).
Proof.
  split.
  - apply initial_queue_independent. intros t Ht.
    unfold PyDict.comprehension.
    apply (comprehension_get_nodup task_id (fun t => Z.of_nat (List.length (dependencies t)))
             (tasks p) [] t Hu Ht).
  - intros t. unfold get_independent_tasks. rewrite filter_In.
    unfold has_dependencies. destruct (dependencies t); simpl; split; try tauto.
    + intros [_ H]; discriminate.
    + intros [_ H]; discriminate.
Qed.

Lemma independent_tasks_start_kahn_witness :
  unique_task_ids (mkProject "P" [chain_A; chain_B; chain_C] 2 "low" "") /\
  let p := mkProject "P" [chain_A; chain_B; chain_C] 2 "low" "" in
  initial_queue (tasks p) (tasks p)
    (PyDict.comprehension task_id (fun t => Z.of_nat (List.length (dependencies t))) (tasks p)) =
    Ok (map task_id (get_independent_tasks p)) /\
  (forall t, In t (get_independent_tasks p) <-> In t (tasks p) /\ dependencies t = []).
Proof.
  assert (Hu : unique_task_ids (mkProject "P" [chain_A; chain_B; chain_C] 2 "low" "")).
  { unfold unique_task_ids. vm_compute.
    repeat apply NoDup_cons; try apply NoDup_nil; simpl; intuition discriminate. }
  split; [exact Hu|].
  exact (independent_tasks_start_kahn _ Hu).
Defined.

Lemma py_sum_scale (l : list Q) (m : Q) : py_sum (map (fun x => x * m) l) == py_sum l * m.
Proof.
  induction l as [|x r IH]; [unfold py_sum; simpl; lra|].
  cbn [map]. rewrite !py_sum_cons, IH. ring.
Qed.

(** X4: [calculate_task_costs] has one entry per task, in task order, and its
    base and adjusted costs add up to [calculate_base_cost] and
    [calculate_adjusted_cost]. *)
Theorem task_costs_sum p :
  map tc_task_id (calculate_task_costs p) = map task_id (tasks p) /\
  map tc_task_name (calculate_task_costs p) = map name (tasks p) /\
  py_sum (map tc_base_cost (calculate_task_costs p)) == calculate_base_cost p /\
  py_sum (map tc_adjusted_cost (calculate_task_costs p)) == calculate_adjusted_cost p.
Proof.
  unfold calculate_task_costs, calculate_base_cost, calculate_adjusted_cost, total_base_cost.
  rewrite !map_map. cbn [tc_task_id tc_task_name tc_base_cost tc_adjusted_cost].
  split; [reflexivity|]. split; [reflexivity|]. split; [reflexivity|].
  rewrite <- (map_map base_cost (fun x => x * get_risk_multiplier (risk_level p))).
  apply py_sum_scale.
Qed.

Lemma risk_multiplier_range r : 11 # 10 <= get_risk_multiplier r /\ get_risk_multiplier r <= 16 # 10.
Proof.
  unfold get_risk_multiplier.
  repeat match goal with |- context [if ?b then _ else _] => destruct b end;
    split; vm_compute; discriminate.
Qed.

(** X5: for a constructed project, [calculate_cost_breakdown] succeeds; base
    cost plus risk overhead is the total cost, the total is the base cost
    times the risk multiplier, the cost per resource times the team size is
    the total, and for a non-negative base cost the overhead lies between 10%
    and 60% of it. *)
Theorem cost_breakdown_consistent nm ts team risk desc p
  (Hp : Project_init nm ts team risk desc = Ok p) :
  exists cb, calculate_cost_breakdown p = Ok cb /\
    cb_base_cost cb + cb_risk_overhead cb == cb_total_cost cb /\
    cb_total_cost cb == total_base_cost p * get_risk_multiplier (risk_level p) /\
    cb_cost_per_resource cb * inject_Z team == cb_total_cost cb /\
    (0 <= total_base_cost p ->
     cb_base_cost cb * (1 # 10) <= cb_risk_overhead cb /\
     cb_risk_overhead cb <= cb_base_cost cb * (6 # 10)).
Proof.
  destruct (Project_init_ok _ _ _ _ _ _ Hp) as [-> Hteam].
  unfold calculate_cost_breakdown, calculate_cost_per_resource, calculate_adjusted_cost,
    calculate_base_cost. cbn [team_size risk_level].
  replace (team =? 0)%Z with false by (symmetry; apply Z.eqb_neq; lia). simpl.
  set (b := total_base_cost _). set (m := get_risk_multiplier _).
  eexists. split; [reflexivity|]. cbn [cb_base_cost cb_risk_overhead cb_total_cost cb_cost_per_resource].
  split; [ring|]. split; [reflexivity|]. split.
  - field. intros H. apply Qeq_alt in H. unfold inject_Z, Qcompare in H. simpl in H.
    rewrite Z.mul_1_r in H. apply Z.compare_eq in H. lia.
  - intros Hb. destruct (risk_multiplier_range (py_lower risk)) as [Hm1 Hm2]. fold m in Hm1, Hm2.
    assert (H1 : b * (11 # 10) <= b * m) by (rewrite !(Qmult_comm b); apply Qmult_le_compat_r; auto).
    assert (H2 : b * m <= b * (16 # 10)) by (rewrite !(Qmult_comm b); apply Qmult_le_compat_r; auto).
    split; lra.
Qed.

Lemma cost_breakdown_consistent_witness :
  Project_init "P" [chain_A; chain_B; chain_C] 2 "low" "" =
    Ok (mkProject "P" [chain_A; chain_B; chain_C] 2 "low" "") /\
  let p := mkProject "P" [chain_A; chain_B; chain_C] 2 "low" "" in
  exists cb, calculate_cost_breakdown p = Ok cb /\
    cb_base_cost cb + cb_risk_overhead cb == cb_total_cost cb /\
    cb_total_cost cb == total_base_cost p * get_risk_multiplier (risk_level p) /\
    cb_cost_per_resource cb * inject_Z 2 == cb_total_cost cb /\
    (0 <= total_base_cost p ->
     cb_base_cost cb * (1 # 10) <= cb_risk_overhead cb /\
     cb_risk_overhead cb <= cb_base_cost cb * (6 # 10)).
Proof.
  assert (Hp : Project_init "P" [chain_A; chain_B; chain_C] 2 "low" "" =
                 Ok (mkProject "P" [chain_A; chain_B; chain_C] 2 "low" "")) by reflexivity.
  split; [exact Hp|].
  exact (cost_breakdown_consistent _ _ _ _ _ _ Hp).
Defined.

Lemma strongly_sorted_nth (l : list Q) (i j : nat) :
  StronglySorted Qle l -> (i <= j)%nat -> (j < List.length l)%nat -> nth i l 0 <= nth j l 0.
Proof.
  revert i j. induction l as [|x r IH]; intros i j Hs Hij Hj; simpl in Hj; [lia|].
  inversion Hs as [|? ? Hs' Hall]; subst.
  destruct i as [|i], j as [|j]; simpl.
  - apply Qle_refl.
  - rewrite Forall_forall in Hall. apply Hall, nth_In. lia.
  - lia.
  - apply IH; auto; lia.
Qed.

Lemma percentile_nth (values : list Q) (p : Q) :
  values <> [] -> 0 <= p ->
  let n := Z.of_nat (List.length values) in
  let i := Z.min (Qfloor (inject_Z n * (p / 100))) (n - 1) in
  (0 <= i < n)%Z /\
  calculate_percentile values p = Ok (nth (Z.to_nat i) (py_sorted_by Qltb values) 0).
Proof.
  intros Hne Hp n i.
  pose proof (Permutation_length (py_sorted_by_perm Qltb values)) as Hlen.
  assert (Hn : (1 <= n)%Z) by (destruct values; [contradiction | unfold n; simpl; lia]).
  assert (Hq : 0 <= inject_Z n * (p / 100)).
  { apply Qmult_le_0_compat; [unfold Qle; simpl; lia|].
    unfold Qdiv. apply Qmult_le_0_compat; [exact Hp | vm_compute; discriminate]. }
  assert (Hf : (0 <= Qfloor (inject_Z n * (p / 100)))%Z).
  { pose proof (Qfloor_resp_le 0 _ Hq) as H. exact H. }
  assert (Hi : (0 <= i < n)%Z) by (unfold i; lia).
  split; [exact Hi|].
  destruct values as [|v vs]; [contradiction|].
  unfold calculate_percentile. rewrite Hlen. fold n.
  rewrite py_int_floor by exact Hq. fold i.
  assert (Hlt : (Z.to_nat i < List.length (py_sorted_by Qltb (v :: vs)))%nat).
  { rewrite Hlen. unfold n in Hi. lia. }
  pose proof (py_index_nth _ _ _ (nth_error_nth' _ 0 Hlt)) as E.
  rewrite Z2Nat.id in E by lia. exact E.
Qed.

Lemma percentile_mono_helper (values : list Q) (p1 p2 : Q) :
  0 <= p1 -> p1 <= p2 ->
  exists a b, calculate_percentile values p1 = Ok a /\
              calculate_percentile values p2 = Ok b /\ a <= b /\
              (values <> [] -> In a values /\ In b values).
Proof.
  intros H1 H12.
  destruct values as [|v vs].
  - exists 0, 0. refine (conj eq_refl (conj eq_refl (conj (Qle_refl 0) _))). congruence.
  - assert (Hne : v :: vs <> []) by discriminate.
    assert (H2 : 0 <= p2) by (apply Qle_trans with p1; auto).
    destruct (percentile_nth _ _ Hne H1) as [Hi1 E1].
    destruct (percentile_nth _ _ Hne H2) as [Hi2 E2].
    set (sv := py_sorted_by Qltb (v :: vs)) in *.
    pose proof (py_sorted_by_perm Qltb (v :: vs)) as Hperm. fold sv in Hperm.
    pose proof (Permutation_length Hperm) as Hlen.
    eexists; eexists. refine (conj E1 (conj E2 (conj _ _))).
    + apply strongly_sorted_nth.
      * apply Sorted_StronglySorted; [exact Qle_trans | apply py_sorted_sorted].
      * apply Z2Nat.inj_le; try lia.
        apply Z.min_le_compat_r, Qfloor_resp_le.
        rewrite !(Qmult_comm (inject_Z _)).
        apply Qmult_le_compat_r; [|unfold Qle; simpl; lia].
        unfold Qdiv. apply Qmult_le_compat_r; [exact H12 | vm_compute; discriminate].
      * rewrite Hlen. simpl length in Hi2 |- *. lia.
    + intros _. split; apply (Permutation_in _ Hperm), nth_In; rewrite Hlen; simpl length in *; lia.
Qed.

(** X6: [calculate_percentile] with a non-negative percentile never fails;
    it is monotone in the percentile, and on a non-empty list it returns
    one of the values. *)
Theorem percentile_monotone (values : list Q) (p1 p2 : Q)
  (H1 : 0 <= p1) (H12 : p1 <= p2) :
  exists a b, calculate_percentile values p1 = Ok a /\
              calculate_percentile values p2 = Ok b /\ a <= b /\
              (values <> [] -> In a values /\ In b values).
Proof. exact (percentile_mono_helper values p1 p2 H1 H12). Qed.

Lemma percentile_monotone_witness :
  0 <= 10 /\ 10 <= 90 /\
  exists a b, calculate_percentile [3; 1; 2] 10 = Ok a /\
              calculate_percentile [3; 1; 2] 90 = Ok b /\ a <= b /\
              ([3; 1; 2] <> [] -> In a [3; 1; 2] /\ In b [3; 1; 2]).
Proof.
  assert (H1 : 0 <= 10) by (vm_compute; discriminate).
  assert (H2 : 10 <= 90) by (vm_compute; discriminate).
  split; [exact H1|]. split; [exact H2|].
  exact (percentile_monotone [3; 1; 2] 10 90 H1 H2).
Defined.

(** X7: [get_scenarios] never fails, and its scenarios are ordered: the
    best case, the median, the 75th percentile and the worst case have
    non-decreasing costs and non-decreasing timelines. *)
Theorem scenarios_ordered (r : SimulationResult) :
  exists sc b m q w,
    get_scenarios r = Ok sc /\
    PyDict.get "best_case" sc = Some b /\ PyDict.get "p50" sc = Some m /\
    PyDict.get "p75" sc = Some q /\ PyDict.get "worst_case" sc = Some w /\
    sc_cost b <= sc_cost m /\ sc_cost m <= sc_cost q /\ sc_cost q <= sc_cost w /\
    sc_timeline b <= sc_timeline m /\ sc_timeline m <= sc_timeline q /\
    sc_timeline q <= sc_timeline w.
Proof.
  assert (H0 : 0 <= 10) by (vm_compute; discriminate).
  assert (Ha : 10 <= 50) by (vm_compute; discriminate).
  assert (Hb : 50 <= 75) by (vm_compute; discriminate).
  assert (Hc : 75 <= 90) by (vm_compute; discriminate).
  assert (H50 : 0 <= 50) by (vm_compute; discriminate).
  assert (H75 : 0 <= 75) by (vm_compute; discriminate).
  destruct (percentile_mono_helper (costs r) 10 50 H0 Ha) as [c10 [c50 [Ec10 [Ec50 [Hc1 _]]]]].
  destruct (percentile_mono_helper (costs r) 50 75 H50 Hb) as [c50' [c75 [Ec50' [Ec75 [Hc2 _]]]]].
  destruct (percentile_mono_helper (costs r) 75 90 H75 Hc) as [c75' [c90 [Ec75' [Ec90 [Hc3 _]]]]].
  destruct (percentile_mono_helper (timelines r) 10 50 H0 Ha) as [t10 [t50 [Et10 [Et50 [Ht1 _]]]]].
  destruct (percentile_mono_helper (timelines r) 50 75 H50 Hb) as [t50' [t75 [Et50' [Et75 [Ht2 _]]]]].
  destruct (percentile_mono_helper (timelines r) 75 90 H75 Hc) as [t75' [t90 [Et75' [Et90 [Ht3 _]]]]].
  rewrite Ec50 in Ec50'. injection Ec50' as <-.
  rewrite Ec75 in Ec75'. injection Ec75' as <-.
  rewrite Et50 in Et50'. injection Et50' as <-.
  rewrite Et75 in Et75'. injection Et75' as <-.
  unfold get_scenarios, get_cost_percentile, get_timeline_percentile.
  rewrite Ec10, Et10, Ec90, Et90, Ec50, Et50, Ec75, Et75. simpl.
  do 5 eexists. refine (conj eq_refl (conj eq_refl (conj eq_refl (conj eq_refl (conj eq_refl _))))).
  cbn [sc_cost sc_timeline]. auto 10.
Qed.

Lemma sum_lower_bound (l : list Q) (m : Q) :
  (forall y, In y l -> m <= y) -> inject_Z (Z.of_nat (List.length l)) * m <= py_sum l.
Proof.
  induction l as [|x r IH]; intros H.
  - unfold py_sum. cbn [List.length Z.of_nat fold_left]. change (inject_Z 0) with 0. lra.
  - rewrite py_sum_cons. cbn [List.length]. rewrite Nat2Z.inj_succ.
    unfold Z.succ. rewrite inject_Z_plus.
    assert (Hx : m <= x) by (apply H; simpl; auto).
    assert (Hr := IH (fun y Hy => H y (or_intror Hy))).
    change (inject_Z 1) with 1. lra.
Qed.

Lemma sum_upper_bound (l : list Q) (m : Q) :
  (forall y, In y l -> y <= m) -> py_sum l <= inject_Z (Z.of_nat (List.length l)) * m.
Proof.
  induction l as [|x r IH]; intros H.
  - unfold py_sum. cbn [List.length Z.of_nat fold_left]. change (inject_Z 0) with 0. lra.
  - rewrite py_sum_cons. cbn [List.length]. rewrite Nat2Z.inj_succ.
    unfold Z.succ. rewrite inject_Z_plus.
    assert (Hx : x <= m) by (apply H; simpl; auto).
    assert (Hr := IH (fun y Hy => H y (or_intror Hy))).
    change (inject_Z 1) with 1. lra.
Qed.

(** X8: the mean that [SimulationResult.cost_mean] and [timeline_mean]
    compute of a non-empty list lies between its minimum and its maximum. *)
Theorem mean_between (x : Q) (xs : list Q) :
  py_min x xs <= mean_of (x :: xs) /\ mean_of (x :: xs) <= py_max x xs.
Proof.
  destruct (py_min_spec x xs) as [_ Hmin]. destruct (py_max_spec x xs) as [_ Hmax].
  rewrite Forall_forall in Hmin, Hmax.
  assert (Hn : 0 < inject_Z (Z.of_nat (List.length (x :: xs)))).
  { unfold Qlt. simpl. lia. }
  unfold mean_of. split.
  - apply Qle_shift_div_l; [exact Hn|].
    rewrite Qmult_comm. apply sum_lower_bound. exact Hmin.
  - apply Qle_shift_div_r; [exact Hn|].
    rewrite Qmult_comm. apply sum_upper_bound. exact Hmax.
Qed.

Lemma find_predecessor_in ts es cur deps d :
  find_predecessor ts es cur deps = Ok (Some d) -> In d deps.
Proof.
  induction deps as [|x r IH]; simpl; [discriminate|]. intros H.
  apply bind_ok in H. destruct H as [e [_ H]].
  apply bind_ok in H. destruct H as [dt [_ H]].
  apply bind_ok in H. destruct H as [ec [_ H]].
  destruct (Qeqb (e + estimated_days dt) ec).
  - injection H as ->. auto.
  - auto.
Qed.

Lemma backtrack_chain fuel ts es cur acc path :
  backtrack fuel ts es cur acc = Ok path ->
  dep_chain acc -> (forall t, In t acc -> In t ts) ->
  (forall c, cur = Some c ->
     match acc with a :: _ => In c (dependencies a) | [] => True end) ->
  dep_chain path /\ (forall t, In t path -> In t ts) /\ exists pre, path = (pre ++ acc)%list.
Proof.
  revert cur acc. induction fuel as [|f IH]; intros cur acc H Hc Hin Hnx;
    cbn [backtrack] in H; [discriminate|].
  destruct (truthy cur) as [c|] eqn:Et.
  2: { injection H as <-. exact (conj Hc (conj Hin (ex_intro _ [] eq_refl))). }
  assert (Hcur : cur = Some c).
  { destruct cur as [s|]; cbn [truthy] in Et; [|discriminate].
    destruct (String.eqb s ""); congruence. }
  apply bind_ok in H. destruct H as [ct [Hct H]].
  destruct (find_task c ts) as [ct'|] eqn:Ef; cbn [task_or_attr_error] in Hct;
    [injection Hct as -> | discriminate].
  destruct (find_task_some _ _ _ Ef) as [Hid Hinct].
  assert (Hc' : dep_chain (ct :: acc)).
  { destruct acc as [|a r]; cbn [dep_chain]; auto. split; auto.
    rewrite Hid. exact (Hnx c Hcur). }
  assert (Hin' : forall t, In t (ct :: acc) -> In t ts) by (intros t [<- | Ht]; auto).
  destruct (dependencies ct) as [|d0 ds] eqn:Ed.
  - injection H as <-. exact (conj Hc' (conj Hin' (ex_intro _ [ct] eq_refl))).
  - apply bind_ok in H. destruct H as [nxt [Hn H]].
    change (find_predecessor ts es ct (d0 :: ds) = Ok nxt) in Hn.
    destruct (IH nxt (ct :: acc) H Hc' Hin') as [H1 [H2 [pre Hpre]]].
    + intros d ->. rewrite Ed. exact (find_predecessor_in _ _ _ _ _ Hn).
    + refine (conj H1 (conj H2 (ex_intro _ (pre ++ [ct])%list _))).
      rewrite <- app_assoc. exact Hpre.
Qed.

Lemma backtrack_suffix fuel ts es cur acc path :
  backtrack fuel ts es cur acc = Ok path -> exists pre, path = (pre ++ acc)%list.
Proof.
  revert cur acc. induction fuel as [|f IH]; intros cur acc H; cbn [backtrack] in H;
    [discriminate|].
  destruct (truthy cur) as [c|]; [|injection H as <-; exists []; reflexivity].
  apply bind_ok in H. destruct H as [ct [_ H]].
  destruct (dependencies ct) as [|d0 ds].
  - injection H as <-. exists [ct]. reflexivity.
  - apply bind_ok in H. destruct H as [nxt [_ H]].
    destruct (IH _ _ H) as [pre ->]. exists (pre ++ [ct])%list. rewrite <- app_assoc. reflexivity.
Qed.

Lemma critical_path_members fuel p cp :
  get_critical_path fuel p = Ok cp ->
  dep_chain cp /\ (forall t, In t cp -> In t (tasks p)).
Proof.
  intros H. unfold get_critical_path in H.
  apply bind_ok in H. destruct H as [q [_ H]].
  apply bind_ok in H. destruct H as [es [_ H]].
  apply bind_ok in H. destruct H as [end_id [_ H]].
  destruct (backtrack_chain _ _ _ _ [] _ H I (fun t Ht => False_ind _ Ht) (fun _ _ => I))
    as [H1 [H2 _]].
  auto.
Qed.

Lemma keys_set {V} (k : string) (v : V) d x :
  In x (PyDict.keys (PyDict.set k v d)) -> x = k \/ In x (PyDict.keys d).
Proof.
  unfold PyDict.keys. induction d as [|[k' v'] r IH]; simpl.
  - intros [-> | []]; auto.
  - destruct (String.eqb_spec k k'); simpl; intros [-> | Hx]; auto.
    destruct (IH Hx); auto.
Qed.

Lemma comprehension_keys {A V} (f : A -> string) (h : A -> V) xs d x :
  In x (PyDict.keys (fold_left (fun d a => PyDict.set (f a) (h a) d) xs d)) ->
  In x (map f xs) \/ In x (PyDict.keys d).
Proof.
  revert d. induction xs as [|a r IH]; intros d Hx; simpl in Hx |- *; auto.
  destruct (IH _ Hx) as [H | H]; auto.
  destruct (keys_set _ _ _ _ H); auto.
Qed.

Lemma kahn_update_keys (ids : list string) cur ct ts indeg es q indeg' es' q' :
  kahn_update cur ct ts indeg es q = Ok (indeg', es', q') ->
  (forall t, In t ts -> In (task_id t) ids) ->
  (forall x, In x (PyDict.keys es) -> In x ids) ->
  forall x, In x (PyDict.keys es') -> In x ids.
Proof.
  revert indeg es q. induction ts as [|t r IH]; intros indeg es q H Hts Hes; cbn [kahn_update] in H.
  - injection H as _ <- _. exact Hes.
  - destruct (str_mem cur (dependencies t)).
    + apply bind_ok in H. destruct H as [a [_ H]].
      apply bind_ok in H. destruct H as [b [_ H]].
      apply bind_ok in H. destruct H as [c [_ H]].
      apply bind_ok in H. destruct H as [d [_ H]].
      refine (IH _ _ _ H (fun t' Ht' => Hts t' (or_intror Ht')) _).
      intros x Hx. destruct (keys_set _ _ _ _ Hx) as [-> | Hx']; auto.
      apply Hts. simpl. auto.
    + exact (IH _ _ _ H (fun t' Ht' => Hts t' (or_intror Ht')) Hes).
Qed.

Lemma kahn_loop_keys fuel ts q indeg es es' :
  kahn_loop fuel ts q indeg es = Ok es' ->
  (forall x, In x (PyDict.keys es) -> In x (map task_id ts)) ->
  forall x, In x (PyDict.keys es') -> In x (map task_id ts).
Proof.
  revert q indeg es. induction fuel as [|f IH]; intros q indeg es H Hes; cbn [kahn_loop] in H;
    [discriminate|].
  destruct q as [|cur q]; [injection H as <-; exact Hes|].
  apply bind_ok in H. destruct H as [[[i' e'] q'] [Hu H]].
  apply (IH _ _ _ H).
  exact (kahn_update_keys _ _ _ _ _ _ _ _ _ _ Hu (fun t Ht => in_map _ _ _ Ht) Hes).
Qed.

Lemma argmax_from_in ts es best bv ks r :
  argmax_from ts es best bv ks = Ok r -> r = best \/ In r ks.
Proof.
  revert best bv. induction ks as [|k ks IH]; intros best bv H; cbn [argmax_from] in H.
  - injection H as <-. auto.
  - apply bind_ok in H. destruct H as [v [_ H]].
    destruct (Qltb bv v); destruct (IH _ _ H) as [-> | Hr]; simpl; auto.
Qed.

Lemma argmax_key_in ts es ks r : argmax_key ts es ks = Ok r -> In r ks.
Proof.
  destruct ks as [|k ks]; cbn [argmax_key]; [discriminate|]. intros H.
  apply bind_ok in H. destruct H as [v [_ H]].
  destruct (argmax_from_in _ _ _ _ _ _ H) as [-> | Hr]; simpl; auto.
Qed.

Lemma critical_path_nonempty fuel p cp :
  (forall t, In t (tasks p) -> task_id t <> "") ->
  get_critical_path fuel p = Ok cp -> cp <> [].
Proof.
  intros Hid H. unfold get_critical_path in H.
  apply bind_ok in H. destruct H as [q [_ H]].
  apply bind_ok in H. destruct H as [es [Hes H]].
  apply bind_ok in H. destruct H as [end_id [Hend H]].
  assert (Hk : In end_id (map task_id (tasks p))).
  { apply (kahn_loop_keys _ _ _ _ _ _ Hes).
    - intros x Hx. destruct (comprehension_keys _ _ _ _ _ Hx) as [Hx' | []]. exact Hx'.
    - exact (argmax_key_in _ _ _ _ Hend). }
  assert (Hne : end_id <> "").
  { apply in_map_iff in Hk. destruct Hk as [t [<- Ht]]. auto. }
  destruct fuel as [|f]; cbn [backtrack] in H; [discriminate|].
  unfold truthy in H. apply String.eqb_neq in Hne. rewrite Hne in H.
  apply bind_ok in H. destruct H as [ct [_ H]].
  destruct (dependencies ct) as [|d0 ds].
  - injection H as <-. discriminate.
  - apply bind_ok in H. destruct H as [nxt [_ H]].
    destruct (backtrack_suffix _ _ _ _ _ _ H) as [pre ->].
    intros E. apply app_eq_nil in E. destruct E as [_ E]. discriminate.
Qed.

(** X9: the tasks [get_critical_path] returns are tasks of the project, each
    one a declared dependency of the task after it; when every task has a
    positive duration they have distinct ids. *)
Theorem critical_path_chain fuel p cp (Hcp : get_critical_path fuel p = Ok cp) :
  dep_chain cp /\ (forall t, In t cp -> In t (tasks p)) /\
  ((forall t, In t (tasks p) -> 0 < estimated_days t) -> NoDup (map task_id cp)).
Proof.
  destruct (critical_path_members _ _ _ Hcp) as [H1 H2].
  refine (conj H1 (conj H2 _)). intros Hpos.
  unfold get_critical_path in Hcp.
  apply bind_ok in Hcp. destruct Hcp as [q [_ H]].
  apply bind_ok in H. destruct H as [es [_ H]].
  apply bind_ok in H. destruct H as [end_id [_ H]].
  destruct (backtrack_distinct _ _ _ _ [] _ Hpos (NoDup_nil _) (fun t Ht => False_ind _ Ht)
              (fun t Ht => False_ind _ Ht) H) as [Hnd _].
  exact Hnd.
Qed.

Lemma critical_path_chain_witness :
  exists cp, get_critical_path 20 chain_project = Ok cp /\
  dep_chain cp /\ (forall t, In t cp -> In t (tasks chain_project)) /\
  ((forall t, In t (tasks chain_project) -> 0 < estimated_days t) -> NoDup (map task_id cp)).
Proof.
  let v := eval vm_compute in (match get_critical_path 20 chain_project with
                               | Ok cp => cp | _ => [] end) in
  exists v.
  assert (Hcp : get_critical_path 20 chain_project = Ok
                  (ltac:(let v := eval vm_compute in (match get_critical_path 20 chain_project with
                                                     | Ok cp => cp | _ => [] end) in exact v)))
    by (vm_compute; reflexivity).
  split; [exact Hcp|].
  exact (critical_path_chain 20 chain_project _ Hcp).
Defined.

(** X10: when no task id is the empty string, a successful
    [get_critical_path_analysis] reports a critical path (never the
    "no critical path" message) with at least one task, whose task count is
    the number of its task names, each the name of a task of the project. *)
Theorem critical_path_analysis_info fuel p a
  (Hid : forall t, In t (tasks p) -> task_id t <> "")
  (Ha : get_critical_path_analysis fuel p = Ok a) :
  exists names k d ad c ac, a = CriticalPathInfo names k d ad c ac /\
    k = Z.of_nat (List.length names) /\ (1 <= k)%Z /\
    (forall n, In n names -> exists t, In t (tasks p) /\ name t = n).
Proof.
  unfold get_critical_path_analysis in Ha.
  apply bind_ok in Ha. destruct Ha as [cp [Hcp Ha]].
  pose proof (critical_path_nonempty _ _ _ Hid Hcp) as Hne.
  destruct (critical_path_members _ _ _ Hcp) as [_ Hmem].
  destruct cp as [|t0 r]; [contradiction|].
  injection Ha as <-.
  do 6 eexists. refine (conj eq_refl (conj _ (conj _ _))).
  - cbn [List.length map]. rewrite length_map. reflexivity.
  - cbn [List.length]. lia.
  - intros n Hn. change (In n (map name (t0 :: r))) in Hn. apply in_map_iff in Hn. destruct Hn as [t [<- Ht]]. eauto.
Qed.

Lemma critical_path_analysis_info_witness :
  (forall t, In t (tasks chain_project) -> task_id t <> "") /\
  exists a, get_critical_path_analysis 20 chain_project = Ok a /\
  exists names k d ad c ac, a = CriticalPathInfo names k d ad c ac /\
    k = Z.of_nat (List.length names) /\ (1 <= k)%Z /\
    (forall n, In n names -> exists t, In t (tasks chain_project) /\ name t = n).
Proof.
  assert (Hid : forall t, In t (tasks chain_project) -> task_id t <> "").
  { intros t [<- | [<- | [<- | []]]]; vm_compute; discriminate. }
  split; [exact Hid|].
  let v := eval vm_compute in (match get_critical_path_analysis 20 chain_project with
                               | Ok a => a | _ => NoCriticalPath end) in
  assert (Ha : get_critical_path_analysis 20 chain_project = Ok v) by (vm_compute; reflexivity);
  exists v.
  split; [exact Ha|].
  exact (critical_path_analysis_info 20 chain_project _ Hid Ha).
Defined.

Lemma py_max2_ge a b : a <= py_max2 a b /\ b <= py_max2 a b.
Proof.
  unfold py_max2. destruct (Qltb a b) eqn:E.
  - apply Qltb_true in E. split; [apply Qlt_le_weak, E | apply Qle_refl].
  - apply Qltb_false in E. split; [apply Qle_refl | exact E].
Qed.

(** X11: for a constructed project whose tasks have positive durations, a
    successful [calculate_timeline_breakdown] is ordered: the optimistic
    estimate (the critical-path duration) is non-negative and at most the
    realistic one, which is at most the sequential one. *)
Theorem timeline_breakdown_ordered nm ts team risk desc p fuel tb
  (Hp : Project_init nm ts team risk desc = Ok p)
  (Hpos : forall t, In t ts -> 0 < estimated_days t)
  (Htb : calculate_timeline_breakdown fuel p = Ok tb) :
  0 <= tb_parallel_optimistic tb /\
  tb_parallel_optimistic tb <= tb_parallel_realistic tb /\
  tb_parallel_realistic tb <= tb_sequential tb.
Proof.
  destruct (Project_init_ok _ _ _ _ _ _ Hp) as [-> Hteam].
  unfold calculate_timeline_breakdown in Htb.
  apply bind_ok in Htb. destruct Htb as [cp [Hcp Htb]].
  apply bind_ok in Htb. destruct Htb as [rl [Hr Htb]].
  injection Htb as <-. cbn [tb_parallel_optimistic tb_parallel_realistic tb_sequential].
  destruct (critical_path_members _ _ _ Hcp) as [_ Hmem]. cbn [tasks] in Hmem.
  assert (H0 : 0 <= py_sum (map estimated_days cp)).
  { apply days_sum_nonneg. intros t Ht. apply Qlt_le_weak, Hpos, Hmem, Ht. }
  destruct (risk_multiplier_range (py_lower risk)) as [Hm1 Hm2].
  unfold calculate_parallel_timeline, calculate_sequential_timeline, total_estimated_days in *.
  cbn [tasks team_size risk_level] in *.
  set (m := get_risk_multiplier (py_lower risk)) in *.
  set (c := py_sum (map estimated_days cp)) in *.
  assert (Hcm : c * (11 # 10) <= c * m)
    by (rewrite !(Qmult_comm c); apply Qmult_le_compat_r; auto).
  destruct ts as [|t0 r].
  - injection Hr as <-.
    destruct cp as [|x cs]; [|destruct (Hmem x (or_introl eq_refl))].
    unfold c, py_sum. cbn [map fold_left]. lra.
  - apply bind_ok in Hr. destruct Hr as [cp' [Hcp' Hr]].
    rewrite Hcp in Hcp'. injection Hcp' as <-.
    apply bind_ok in Hr. destruct Hr as [tl [Htl Hr]]. injection Hr as <-.
    pose proof (critical_path_bounded _ (mkProject nm (t0 :: r) team (py_lower risk) desc)
                  _ Hpos Hcp) as Hc.
    pose proof (schedule_bounded _ (mkProject nm (t0 :: r) team (py_lower risk) desc)
                  _ Hteam Hpos Htl) as Hs.
    cbn [tasks] in Hc, Hs. fold c in Hc.
    destruct (py_max2_ge (tl * m) (c * m)) as [_ Hge].
    fold c. refine (conj H0 (conj _ _)); [lra|].
    apply py_max2_le; apply Qmult_le_compat_r; auto; lra.
Qed.

Lemma timeline_breakdown_ordered_witness :
  Project_init "P" [chain_A; chain_B; chain_C] 2 "low" "" = Ok chain_project /\
  (forall t, In t [chain_A; chain_B; chain_C] -> 0 < estimated_days t) /\
  exists tb, calculate_timeline_breakdown 20 chain_project = Ok tb /\
  0 <= tb_parallel_optimistic tb /\
  tb_parallel_optimistic tb <= tb_parallel_realistic tb /\
  tb_parallel_realistic tb <= tb_sequential tb.
Proof.
  assert (Hp : Project_init "P" [chain_A; chain_B; chain_C] 2 "low" "" = Ok chain_project)
    by reflexivity.
  assert (Hpos : forall t, In t [chain_A; chain_B; chain_C] -> 0 < estimated_days t).
  { intros t [<- | [<- | [<- | []]]]; vm_compute; reflexivity. }
  split; [exact Hp|]. split; [exact Hpos|].
  let v := eval vm_compute in (match calculate_timeline_breakdown 20 chain_project with
                               | Ok tb => tb | _ => mkTimelineBreakdown 0 0 0 end) in
  assert (Htb : calculate_timeline_breakdown 20 chain_project = Ok v) by (vm_compute; reflexivity);
  exists v.
  split; [exact Htb|].
  exact (timeline_breakdown_ordered "P" [chain_A; chain_B; chain_C] 2 "low" "" _ 20 _ Hp Hpos Htb).
Defined.

Lemma variation_range_range p : 0 <= variation_range p /\ variation_range p <= 1 # 2.
Proof.
  unfold variation_range.
  repeat match goal with |- context [if ?b then _ else _] => destruct b end;
    split; vm_compute; discriminate.
Qed.

Lemma dep_start_nonneg finish t : 0 <= dep_start finish t.
Proof.
  unfold dep_start.
  assert (H : forall ds e, 0 <= e ->
            0 <= fold_left (fun e dep => match PyDict.get dep finish with
                                         | Some f => py_max2 e f
                                         | None => e
                                         end) ds e).
  { induction ds as [|d ds IH]; intros e He; simpl; auto.
    apply IH. destruct (PyDict.get d finish); auto.
    destruct (py_max2_ge e q) as [H _]. lra. }
  apply H, Qle_refl.
Qed.

Lemma nonneg_values_set k v (d : PyDict.t Q) :
  0 <= v -> (forall x, In x (PyDict.values d) -> 0 <= x) ->
  forall x, In x (PyDict.values (PyDict.set k v d)) -> 0 <= x.
Proof. intros Hv Hd x Hx. destruct (values_set _ _ _ _ Hx) as [-> | H]; auto. Qed.

Lemma scenario_finish_nonneg durations ts finish f :
  scenario_finish durations ts finish = Ok f ->
  (forall x, In x (PyDict.values durations) -> 0 <= x) ->
  (forall x, In x (PyDict.values finish) -> 0 <= x) ->
  forall x, In x (PyDict.values f) -> 0 <= x.
Proof.
  revert finish. induction ts as [|t r IH]; intros finish H Hd Hf; cbn [scenario_finish] in H.
  - injection H as <-. exact Hf.
  - apply bind_ok in H. destruct H as [d [Hl H]].
    unfold PyDict.lookup in Hl. destruct (PyDict.get (task_id t) durations) eqn:E; [|discriminate].
    injection Hl as ->.
    apply (IH _ H Hd). apply nonneg_values_set; auto.
    pose proof (dep_start_nonneg finish t). pose proof (Hd _ (get_in_values _ _ _ E)). lra.
Qed.

Lemma max_values_nonneg (d : PyDict.t Q) :
  (forall x, In x (PyDict.values d) -> 0 <= x) -> 0 <= max_values d.
Proof.
  unfold max_values. destruct (PyDict.values d) as [|v vs]; intros H; [apply Qle_refl|].
  destruct (py_max_spec v vs) as [Hin _]. auto.
Qed.

Section SimulationBounds.
Variable Rng : Type.
Variable uniform : Q -> Q -> Rng -> Q * Rng.
Variable gauss : Q -> Q -> Rng -> Q * Rng.
(** [random.uniform(a, b)] returns a number between [a] and [b]. *)
Hypothesis uniform_range :
  forall a b g, a <= b -> a <= fst (uniform a b g) /\ fst (uniform a b g) <= b.

Lemma perturb_bounds p ts total durations g :
  (forall t, In t ts -> 0 <= base_cost t /\ 0 <= estimated_days t) ->
  (forall x, In x (PyDict.values durations) -> 0 <= x) ->
  let '(total', durations', _) := perturb_tasks Rng uniform p ts total durations g in
  total + (1 - variation_range p * (5 # 10)) * py_sum (map base_cost ts) <= total' /\
  (forall x, In x (PyDict.values durations') -> 0 <= x).
Proof.
  destruct (variation_range_range p) as [Hv1 Hv2].
  revert total durations g. induction ts as [|t r IH]; intros total durations g Hts Hd;
    cbn [perturb_tasks].
  - split; auto. unfold py_sum. cbn [map fold_left]. lra.
  - destruct (uniform_range (1 - variation_range p * (5 # 10)) (1 + variation_range p) g)
      as [Hc1 _]; [lra|].
    destruct (uniform _ _ g) as [cm g1] eqn:Eu1. cbn [fst] in Hc1.
    destruct (uniform_range (1 - variation_range p * (3 # 10))
                (1 + variation_range p * (12 # 10)) g1) as [Ht1 _]; [lra|].
    destruct (uniform _ _ g1) as [tm g2] eqn:Eu2. cbn [fst] in Ht1.
    destruct (Hts t (or_introl eq_refl)) as [Hb Hdays].
    assert (Hdur : 0 <= estimated_days t * tm) by (apply Qmult_le_0_compat; lra).
    specialize (IH (total + base_cost t * cm)
                   (PyDict.set (task_id t) (estimated_days t * tm) durations) g2
                   (fun t' Ht' => Hts t' (or_intror Ht'))
                   (nonneg_values_set _ _ _ Hdur Hd)).
    destruct (perturb_tasks Rng uniform p r _ _ g2) as [[tot d'] g'].
    destruct IH as [IH1 IH2]. split; [|exact IH2].
    cbn [map]. rewrite py_sum_cons.
    set (k := 1 - variation_range p * (5 # 10)) in *.
    assert (Hk : base_cost t * k <= base_cost t * cm)
      by (rewrite !(Qmult_comm (base_cost t)); apply Qmult_le_compat_r; auto).
    assert (E : k * (base_cost t + py_sum (map base_cost r)) ==
                base_cost t * k + k * py_sum (map base_cost r)) by ring.
    rewrite E. lra.
Qed.

Lemma risk_factor_ge1 p g : 1 <= fst (get_risk_factor Rng gauss p g).
Proof.
  unfold get_risk_factor. destruct (gauss 0 (1 # 10) g) as [v g']. cbn [fst].
  apply py_max2_ge.
Qed.

Lemma scenario_timeline_nonneg p durations g tl g' :
  (1 <= team_size p)%Z ->
  (forall x, In x (PyDict.values durations) -> 0 <= x) ->
  calculate_scenario_timeline Rng uniform p durations g = Ok (tl, g') -> 0 <= tl.
Proof.
  intros Hteam Hd H. unfold calculate_scenario_timeline in H.
  apply bind_ok in H. destruct H as [f [Hf H]].
  pose proof (scenario_finish_nonneg _ _ _ _ Hf Hd (fun x Hx => False_ind _ Hx)) as Hfv.
  destruct (team_size p <? task_count p)%Z eqn:Elt.
  - replace (team_size p =? 0)%Z with false in H by (symmetry; apply Z.eqb_neq; lia).
    apply Z.ltb_lt in Elt.
    destruct (uniform_range (8 # 10) (12 # 10) g) as [Hu _]; [vm_compute; discriminate|].
    destruct (uniform (8 # 10) (12 # 10) g) as [u g1]. cbn [fst] in Hu.
    injection H as <- _.
    assert (Hq : 1 <= inject_Z (task_count p) / inject_Z (team_size p)).
    { apply Qle_shift_div_l; [unfold Qlt; simpl; lia|].
      rewrite Qmult_1_l. rewrite <- Zle_Qle. lia. }
    assert (Hc : 0 <= (1 + (1 # 10) * (inject_Z (task_count p) / inject_Z (team_size p) - 1)) * u).
    { apply Qmult_le_0_compat; lra. }
    destruct (PyDict.values f) as [|v vs] eqn:Ev; [apply Qle_refl|].
    apply Qmult_le_0_compat; [|exact Hc].
    destruct (py_max_spec v vs) as [Hin _]. auto.
  - injection H as <- _. apply max_values_nonneg, Hfv.
Qed.

Lemma single_scenario_bounds p g c tl g' :
  (1 <= team_size p)%Z ->
  (forall t, In t (tasks p) -> 0 <= base_cost t /\ 0 <= estimated_days t) ->
  simulate_single_scenario Rng uniform gauss p g = Ok (c, tl, g') ->
  (1 - variation_range p * (5 # 10)) * total_base_cost p <= c /\ 0 <= tl.
Proof.
  intros Hteam Hts H. unfold simulate_single_scenario in H.
  pose proof (perturb_bounds p (tasks p) 0 [] g Hts (fun x Hx => False_ind _ Hx)) as Hpb.
  destruct (perturb_tasks Rng uniform p (tasks p) 0 [] g) as [[total durations] g1].
  destruct Hpb as [Htot Hd].
  apply bind_ok in H. destruct H as [[tl0 g2] [Hs H]].
  pose proof (scenario_timeline_nonneg _ _ _ _ _ Hteam Hd Hs) as Htl0.
  pose proof (risk_factor_ge1 p g2) as Hrf.
  destruct (get_risk_factor Rng gauss p g2) as [rf g3]. cbn [fst] in Hrf.
  injection H as <- <- _.
  destruct (variation_range_range p) as [Hv1 Hv2].
  assert (Hs0 : 0 <= total_base_cost p).
  { unfold total_base_cost. apply py_sum_nonneg, Forall_forall.
    intros x Hx. apply in_map_iff in Hx. destruct Hx as [t [<- Ht]]. apply Hts, Ht. }
  unfold total_base_cost in Hs0 |- *.
  set (k := 1 - variation_range p * (5 # 10)) in *.
  set (s := py_sum (map base_cost (tasks p))) in *.
  assert (Hk0 : 0 <= k) by (unfold k; lra).
  assert (Hks : 0 <= k * s) by (apply Qmult_le_0_compat; lra).
  assert (Ht : 0 <= total) by lra.
  assert (Hr1 : total * 1 <= total * rf)
    by (rewrite !(Qmult_comm total); apply Qmult_le_compat_r; auto).
  split; [lra|]. apply Qmult_le_0_compat; lra.
Qed.

Lemma trials_bounds p k cs tl g cs' tl' g' :
  (1 <= team_size p)%Z ->
  (forall t, In t (tasks p) -> 0 <= base_cost t /\ 0 <= estimated_days t) ->
  simulation_trials Rng uniform gauss p k cs tl g = Ok (cs', tl', g') ->
  (forall c, In c cs -> (1 - variation_range p * (5 # 10)) * total_base_cost p <= c) ->
  (forall x, In x tl -> 0 <= x) ->
  (forall c, In c cs' -> (1 - variation_range p * (5 # 10)) * total_base_cost p <= c) /\
  (forall x, In x tl' -> 0 <= x).
Proof.
  intros Hteam Hts. revert cs tl g. induction k as [|k IH]; intros cs tl g H Hc Ht;
    cbn [simulation_trials] in H.
  - injection H as <- <- _. auto.
  - apply bind_ok in H. destruct H as [[[c t] g1] [Hs H]].
    destruct (single_scenario_bounds _ _ _ _ _ Hteam Hts Hs) as [Hc1 Ht1].
    apply (IH _ _ _ H).
    + intros x Hx. apply in_app_or in Hx. destruct Hx as [Hx | [<- | []]]; auto.
    + intros x Hx. apply in_app_or in Hx. destruct Hx as [Hx | [<- | []]]; auto.
Qed.

(** X12: when [random.uniform] returns numbers between its bounds and every
    task has a non-negative cost and duration, every cost the simulation of
    a constructed project draws is at least [1 - variation_range/2] times the
    project's total base cost, and every timeline it draws is non-negative. *)
Theorem simulated_outcomes_bounded nm ts team risk desc p n g r g'
  (Hp : Project_init nm ts team risk desc = Ok p)
  (Hts : forall t, In t ts -> 0 <= base_cost t /\ 0 <= estimated_days t)
  (Hr : run_simulation Rng uniform gauss (RiskSimulator_init p n) g = Ok (r, g')) :
  (forall c, In c (costs r) -> (1 - variation_range p * (5 # 10)) * total_base_cost p <= c) /\
  (forall x, In x (timelines r) -> 0 <= x).
Proof.
  destruct (Project_init_ok _ _ _ _ _ _ Hp) as [Ep Hteam].
  unfold run_simulation, RiskSimulator_init in Hr. cbn [sim_project sim_iterations] in Hr.
  apply bind_ok in Hr. destruct Hr as [[[cs tl] g1] [Ht Hr]].
  injection Hr as <- _. cbn [costs timelines].
  subst p.
  exact (trials_bounds (mkProject nm ts team (py_lower risk) desc) _ _ _ _ _ _ _ Hteam Hts Ht
           (fun c Hc => False_ind _ Hc)
           (fun x Hx => False_ind _ Hx)).
Qed.
End SimulationBounds.

Lemma simulated_outcomes_bounded_witness :
  (forall a b g, a <= b -> a <= fst (low_uniform a b g) /\ fst (low_uniform a b g) <= b) /\
  Project_init "P" [chain_A; chain_B; chain_C] 2 "low" "" = Ok chain_project /\
  (forall t, In t [chain_A; chain_B; chain_C] -> 0 <= base_cost t /\ 0 <= estimated_days t) /\
  exists r g', run_simulation nat low_uniform zero_gauss (RiskSimulator_init chain_project 100) 0%nat
                 = Ok (r, g') /\
  (forall c, In c (costs r) ->
     (1 - variation_range chain_project * (5 # 10)) * total_base_cost chain_project <= c) /\
  (forall x, In x (timelines r) -> 0 <= x).
Proof.
  assert (Hu : forall a b g, a <= b -> a <= fst (low_uniform a b g) /\ fst (low_uniform a b g) <= b).
  { intros a b g H. cbn [low_uniform fst]. split; [apply Qle_refl | exact H]. }
  assert (Hp : Project_init "P" [chain_A; chain_B; chain_C] 2 "low" "" = Ok chain_project)
    by reflexivity.
  assert (Hts : forall t, In t [chain_A; chain_B; chain_C] -> 0 <= base_cost t /\ 0 <= estimated_days t).
  { intros t [<- | [<- | [<- | []]]]; split; vm_compute; discriminate. }
  split; [exact Hu|]. split; [exact Hp|]. split; [exact Hts|].
  let x := eval vm_compute in
    (run_simulation nat low_uniform zero_gauss (RiskSimulator_init chain_project 100) 0%nat) in
  lazymatch x with
  | Ok (?r, ?g') =>
    assert (E : run_simulation nat low_uniform zero_gauss (RiskSimulator_init chain_project 100) 0%nat
                  = Ok (r, g')) by (vm_compute; reflexivity);
    exists r, g'
  end.
  split; [exact E|].
  exact (simulated_outcomes_bounded nat low_uniform zero_gauss Hu "P" [chain_A; chain_B; chain_C] 2
           "low" "" chain_project 100 0%nat _ _ Hp Hts E).
Defined.

(** X13: a successful [analyze_risk_drivers] reports ordered 80% confidence
    ranges for cost and timeline and a non-empty list of drivers; the list
    names the inherent risk level exactly when the project's risk level is
    "high", and the team resources exactly when the team is smaller than half
    the task count. *)
Theorem risk_drivers_report py_sqrt fuel p r a
  (Ha : analyze_risk_drivers py_sqrt fuel p r = Ok a) :
  fst (cost_range a) <= snd (cost_range a) /\
  fst (timeline_range a) <= snd (timeline_range a) /\
  primary_drivers a <> [] /\
  (In "High inherent project risk level" (primary_drivers a) <-> risk_level p = "high") /\
  (In "Limited team resources relative to task count" (primary_drivers a) <->
     inject_Z (team_size p) < inject_Z (task_count p) / 2).
Proof.
  assert (H0 : 0 <= 10) by (vm_compute; discriminate).
  assert (H1 : 10 <= 90) by (vm_compute; discriminate).
  destruct (percentile_mono_helper (costs r) 10 90 H0 H1) as [c10 [c90 [Ec10 [Ec90 [Hc _]]]]].
  destruct (percentile_mono_helper (timelines r) 10 90 H0 H1) as [t10 [t90 [Et10 [Et90 [Ht _]]]]].
  unfold analyze_risk_drivers in Ha.
  apply bind_ok in Ha. destruct Ha as [cp [_ Ha]].
  unfold get_cost_percentile, get_timeline_percentile in Ha.
  rewrite Ec10, Ec90, Et10, Et90 in Ha. cbn [bind] in Ha. injection Ha as <-.
  cbn [cost_range timeline_range primary_drivers fst snd].
  refine (conj Hc (conj Ht _)).
  destruct (String.eqb_spec (risk_level p) "high") as [Eh | Eh];
  destruct (Qltb (inject_Z (team_size p)) (inject_Z (task_count p) / 2)) eqn:E2;
  [apply Qltb_true in E2 | apply Qltb_false in E2 | apply Qltb_true in E2 | apply Qltb_false in E2];
  (match goal with |- context [if ?b then ["High cost variability"] else []] => destruct b end);
  (match goal with |- context [if ?b then ["High timeline uncertainty"] else []] => destruct b end);
  (match goal with
   |- context [if ?b then ["Long critical path with many dependencies"] else []] => destruct b end);
  cbn [app];
  (split; [discriminate|]);
  (split; [split; intros H; simpl in *;
            first [ tauto
                  | solve [repeat (first [left; reflexivity | right])]
                  | intuition discriminate ] |]);
  split; intros H; simpl in *;
    first [ tauto
          | solve [repeat (first [left; reflexivity | right])]
          | exfalso; apply (Qle_not_lt _ _ E2 H)
          | intuition discriminate ].
Qed.

Lemma risk_drivers_report_witness :
  exists a, analyze_risk_drivers (fun x => x) 20 chain_project (mkResult [3; 1; 2] [5; 4; 6] 3) = Ok a /\
  fst (cost_range a) <= snd (cost_range a) /\
  fst (timeline_range a) <= snd (timeline_range a) /\
  primary_drivers a <> [] /\
  (In "High inherent project risk level" (primary_drivers a) <-> risk_level chain_project = "high") /\
  (In "Limited team resources relative to task count" (primary_drivers a) <->
     inject_Z (team_size chain_project) < inject_Z (task_count chain_project) / 2).
Proof.
  let v := eval vm_compute in
    (match analyze_risk_drivers (fun x => x) 20 chain_project (mkResult [3; 1; 2] [5; 4; 6] 3) with
     | Ok a => a | _ => mkRiskAnalysis 0 0 [] "" (0, 0) (0, 0) end) in
  assert (Ha : analyze_risk_drivers (fun x => x) 20 chain_project (mkResult [3; 1; 2] [5; 4; 6] 3)
                 = Ok v) by (vm_compute; reflexivity);
  exists v.
  split; [exact Ha|].
  exact (risk_drivers_report (fun x => x) 20 chain_project _ _ Ha).
Defined.

(** X14: a risk level accepted by [validate_risk_level] is one of "low",
    "medium" and "high"; validating it again returns it unchanged, and
    [Project] accepts it as it is for a positive team size and a non-empty
    task list. *)
Theorem validate_risk_level_normal risk r (H : validate_risk_level risk = Ok r) :
  In r valid_risk_levels /\ validate_risk_level r = Ok r /\
  (forall nm ts team desc, (1 <= team)%Z -> ts <> [] ->
     Project_init nm ts team r desc = Ok (mkProject nm ts team r desc)).
Proof.
  unfold validate_risk_level in H.
  destruct (str_mem (py_strip (py_lower risk)) valid_risk_levels) eqn:E; cbn [negb] in H;
    [|discriminate].
  injection H as <-. apply str_mem_In in E.
  refine (conj E _).
  destruct E as [<- | [<- | [<- | []]]];
    (split; [reflexivity|]);
    intros nm ts team desc Hteam Hts; unfold Project_init;
    (replace (team <=? 0)%Z with false by (symmetry; apply Z.leb_gt; lia));
    (destruct ts; [contradiction|]); reflexivity.
Qed.

Lemma validate_risk_level_normal_witness :
  validate_risk_level " High
" = Ok "high" /\
  In "high" valid_risk_levels /\ validate_risk_level "high" = Ok "high" /\
  (forall nm ts team desc, (1 <= team)%Z -> ts <> [] ->
     Project_init nm ts team "high" desc = Ok (mkProject nm ts team "high" desc)).
Proof.
  assert (H : validate_risk_level " High
" = Ok "high") by reflexivity.
  split; [exact H|].
  exact (validate_risk_level_normal _ _ H).
Defined.
